(** * BLE beacon scan merging: the two transformation scripts

    A shallow embedding of [Merging_BLEdata.py] (row-preserving
    "flag-append" script) and [scripts/Merging_BLEdata.py] (group-and-pivot
    script), and the properties of their transformation steps.

    A pandas data frame is a list of rows, one record per row, in index
    order.  A cell that pandas shows as NaN / NaT / <NA> is [None].  The
    signal strength column is float64 in the scripts; here it holds exact
    rationals ([Qc]), so that [mean] is the arithmetic mean and rounding is
    left out of the model.  The column operations of the scripts are
    written row by row.

    The scripts hand every timestamp text to [pd.to_datetime(...,
    format='mixed')].  What that library function makes of one text is a
    parameter of the development ([DatetimeParser]): the properties hold
    for every parser, whatever texts it reads.  [parse_iso8601] reads the
    ISO 8601 texts of the examples.  The instants read from a column
    make a datetime column only if they agree on their UTC offset
    ([datetimelike]); on any other column both scripts stop with an
    exception at their first [.dt] access that is not guarded. *)

From Stdlib Require Import Ascii QArith Qcanon.
From stdpp Require Import base option list strings gmap numbers sorting.

Local Open Scope Z_scope.

(** ** The beacon dictionary: [setup_beacon_dictionary] *)

(** A Python dict literal, evaluated left to right: a later entry with the
    same key replaces an earlier one. *)
Definition dict_literal (entries : list (string * string)) : gmap string string :=
  foldl (λ d kv, insert kv.1 kv.2 d) ∅ entries.

Definition beacon_entries : list (string * string) :=
  [ ("F7:7F:78:76:7E:F3", "RSSI_1");
    ("C6:CD:5E:3D:2F:BB", "RSSI_2");
    ("D6:F4:3A:79:74:63", "RSSI_3");
    ("C9:17:55:E2:3E:0E", "RSSI_4");
    ("CA:60:AB:EE:EC:7F", "RSSI_5");
    ("D6:51:7F:AB:0E:29", "RSSI_6");
    ("CC:54:33:F6:A7:90", "RSSI_7");
    ("EB:20:56:87:04:5A", "RSSI_8");
    ("EE:E7:46:DC:19:6F", "RSSI_9");
    ("C8:5B:BF:37:07:A0", "RSSI_10");
    ("D7:26:F6:A3:44:D2", "RSSI_11");
    ("DD:83:B0:27:FD:36", "RSSI_12");
    ("E5:CD:4A:36:87:06", "RSSI_13");
    ("DC:22:B8:17:4E:B5", "RSSI_14");
    ("EA:09:20:80:D6:44", "RSSI_15");
    ("E6:99:D1:EC:C6:81", "RSSI_16");
    ("F6:DA:97:C7:D5:28", "RSSI_17");
    ("EA:66:A1:12:2C:F4", "RSSI_18");
    ("C9:EA:57:8B:0F:80", "RSSI_19");
    ("D6:7C:1D:2C:2A:0A", "RSSI_20");
    ("DA:E1:70:5F:44:97", "RSSI_21");
    ("DD:10:10:F6:4F:27", "RSSI_22");
    ("E6:F3:93:A8:9E:22", "RSSI_23");
    ("E6:60:05:1F:88:F9", "RSSI_24");
    ("D4:33:FD:F4:C2:A8", "RSSI_25") ].

Definition setup_beacon_dictionary : gmap string string :=
  dict_literal beacon_entries.

(** Decimal rendering of a small natural number, as [f'{i}'] prints it. *)
Definition digit_char (d : Z) : ascii := ascii_of_N (Z.to_N (48 + d)).

Definition str_of_slot (i : nat) : string :=
  let n := Z.of_nat i in
  if n <? 10 then String (digit_char n) EmptyString
  else String (digit_char (n / 10)) (String (digit_char (n mod 10)) EmptyString).

(** [rssi_cols = [f'RSSI_{i}' for i in range(1, 26)]] *)
Definition rssi_cols : list string :=
  (λ i, "RSSI_" +:+ str_of_slot i) <$> seq 1 25.

(** The registry as the spec presents it: the slot number of a MAC address
    is the position (from 1) of its column name in [rssi_cols]. *)
Definition column_slot (col : string) : option nat :=
  (λ p, S p.1) <$> list_find (λ c, c = col) rssi_cols.

Definition slot_for (mac : string) : option nat :=
  setup_beacon_dictionary !! mac ≫= column_slot.

(** The MAC addresses that are keys of the dictionary. *)
Definition known_macs : list string := beacon_entries.*1.

(** The slot of a row's MAC address cell, which may be missing. *)
Definition mac_slot (mac : option string) : option nat := mac ≫= slot_for.

(** The 25 flags with only flag [i] set, and with none set. *)
Definition no_flags : list Z := replicate 25 0.
Definition one_hot (i : nat) : list Z := <[pred i := 1]> no_flags.

(** ** Timestamps *)

Definition is_leap (y : Z) : bool :=
  ((y mod 4 =? 0) && negb (y mod 100 =? 0)) || (y mod 400 =? 0).

Definition days_in_month (y m : Z) : Z :=
  if m =? 2 then (if is_leap y then 29 else 28)
  else if (m =? 4) || (m =? 6) || (m =? 9) || (m =? 11) then 30
  else 31.

(** A parsed instant: the wall-clock fields as pandas shows them
    ([.year], ..., [.hour], ..., nanoseconds of the second), and the UTC
    offset in minutes when the instant is timezone-aware. *)
Module Ts.
Record t := mk {
  year : Z; month : Z; day : Z;
  hour : Z; minute : Z; second : Z;
  nanosecond : Z;
  tz : option Z
}.

Definition fields (x : t) : list Z :=
  [year x; month x; day x; hour x; minute x; second x; nanosecond x].

(** What holds of the fields of every pandas [Timestamp] of nanosecond
    resolution, which is what [pd.to_datetime] returns: a calendar day
    of the years 1677 to 2262, a time of the day, an offset of less than
    a day. *)
Definition valid (x : t) : bool :=
  (1677 <=? year x) && (year x <=? 2262) &&
  (1 <=? month x) && (month x <=? 12) &&
  (1 <=? day x) && (day x <=? days_in_month (year x) (month x)) &&
  (0 <=? hour x) && (hour x <=? 23) &&
  (0 <=? minute x) && (minute x <=? 59) &&
  (0 <=? second x) && (second x <=? 59) &&
  (0 <=? nanosecond x) && (nanosecond x <? 1000000000) &&
  match tz x with
  | Some off => (-1440 <? off) && (off <? 1440)
  | None => true
  end.
End Ts.

Global Instance Ts_eq_dec : EqDecision Ts.t.
Proof. solve_decision. Defined.

(** A computation that may stop with an exception. *)
Inductive exc (A : Type) : Type :=
  | Returns (a : A)
  | Raises (what : string).
Global Arguments Returns {A} _.
Global Arguments Raises {A} _.

Global Instance exc_ret : MRet exc := λ A a, Returns a.
Global Instance exc_bind : MBind exc := λ A B f m,
  match m with
  | Returns a => f a
  | Raises e => Raises e
  end.
Global Instance exc_fmap : FMap exc := λ A B f m,
  match m with
  | Returns a => Returns (f a)
  | Raises e => Raises e
  end.

(** *** Parsing: [pd.to_datetime(..., format='mixed')]

    With [format='mixed'] pandas reads every text of the column on its
    own.  [parse_datetime_string] is what it makes of one text: an instant,
    NaT (for a text such as ["NaT"]), or an exception.  Which texts it
    reads, and how, is the library's matter; the scripts only pass the
    texts on.  The one thing used of it is that an instant it returns is
    a [Timestamp]. *)
Class DatetimeParser := {
  parse_datetime_string : string → exc (option Ts.t);
  parse_datetime_string_valid (raw : string) (x : Ts.t) :
    parse_datetime_string raw = Returns (Some x) → Ts.valid x = true
}.

(** One text under [errors='coerce']: a text that cannot be read gives
    NaT. *)
Definition to_datetime {parser : DatetimeParser} (raw : string) : option Ts.t :=
  match parse_datetime_string raw with
  | Returns x => x
  | Raises _ => None
  end.

(** The column [pd.to_datetime] returns is a datetime column
    ([datetime64[ns]] or [datetime64[ns, tz]]) only if the instants it
    read carry one UTC offset, or none of them carries any; NaT fits
    either.  For texts with different offsets, or with and without one,
    it returns a column of objects (a later version raises instead), and
    the [.dt] accessor of such a column raises. *)
Definition datetimelike (col : list (option Ts.t)) : bool :=
  match omap id col with
  | [] => true
  | x :: xs => forallb (λ y, bool_decide (Ts.tz y = Ts.tz x)) xs
  end.

(** [.dt.tz_localize(None)]: the timezone is removed and the local time
    kept. *)
Definition tz_localize_None (x : Ts.t) : Ts.t :=
  Ts.mk (Ts.year x) (Ts.month x) (Ts.day x)
        (Ts.hour x) (Ts.minute x) (Ts.second x) (Ts.nanosecond x) None.

(** [.dt.strftime('%Y-%m-%d')] *)
Definition pad2 (n : Z) : string :=
  String (digit_char (n / 10 mod 10)) (String (digit_char (n mod 10)) EmptyString).

Definition pad4 (n : Z) : string :=
  String (digit_char (n / 1000 mod 10))
    (String (digit_char (n / 100 mod 10)) (pad2 n)).

Definition strftime_ymd (x : Ts.t) : string :=
  pad4 (Ts.year x) +:+ "-" +:+ pad2 (Ts.month x) +:+ "-" +:+ pad2 (Ts.day x).

(** *** The ISO 8601 texts

    [parse_iso8601] reads [YYYY-MM-DD] and
    [YYYY-MM-DD<sep>HH:MM:SS[.f][<offset>]], with [<sep>] a [T] or a
    space, one to nine fraction digits, and [<offset>] one of [Z],
    [+HH:MM], [-HH:MM], for the years 1678 to 2261.  pandas reads these
    texts in this way; it reads many other texts too, which
    [parse_iso8601] leaves alone. *)

Definition digit_of (c : ascii) : option Z :=
  let n := Z.of_N (N_of_ascii c) in
  if bool_decide (48 ≤ n ≤ 57) then Some (n - 48) else None.

Fixpoint read_digits (k : nat) (acc : Z) (s : string) : option (Z * string) :=
  match k with
  | O => Some (acc, s)
  | S k' =>
      match s with
      | String c s' => d ← digit_of c; read_digits k' (10 * acc + d) s'
      | EmptyString => None
      end
  end.

Definition expect (c : ascii) (s : string) : option string :=
  match s with
  | String c' s' => if decide (c' = c) then Some s' else None
  | EmptyString => None
  end.

(** Up to [k] further fraction digits; the value is scaled to [k] more
    places once the digits stop. *)
Fixpoint read_fraction (k : nat) (acc : Z) (s : string) : Z * string :=
  match k with
  | O => (acc, s)
  | S k' =>
      match s with
      | String c s' =>
          match digit_of c with
          | Some d => read_fraction k' (10 * acc + d) s'
          | None => (acc * 10 ^ Z.of_nat k, s)
          end
      | EmptyString => (acc * 10 ^ Z.of_nat k, s)
      end
  end.

Definition guard_b (b : bool) : option unit := if b then Some () else None.

Definition parse_date (s : string) : option (Z * Z * Z * string) :=
  '(y, s) ← read_digits 4 0 s;
  s ← expect "-" s;
  '(m, s) ← read_digits 2 0 s;
  s ← expect "-" s;
  '(d, s) ← read_digits 2 0 s;
  guard_b ((1 <=? m) && (m <=? 12) && (1 <=? d) && (d <=? days_in_month y m));;
  Some (y, m, d, s).

Definition parse_clock (s : string) : option (Z * Z * Z * string) :=
  '(h, s) ← read_digits 2 0 s;
  s ← expect ":" s;
  '(mi, s) ← read_digits 2 0 s;
  s ← expect ":" s;
  '(sec, s) ← read_digits 2 0 s;
  guard_b ((h <=? 23) && (mi <=? 59) && (sec <=? 59));;
  Some (h, mi, sec, s).

Definition parse_fraction (s : string) : option (Z * string) :=
  match s with
  | String "." s' =>
      '(d, s'') ← read_digits 1 0 s';
      Some (read_fraction 8 d s'')
  | _ => Some (0, s)
  end.

Definition parse_offset (s : string) : option (option Z) :=
  match s with
  | EmptyString => Some None
  | String "Z" EmptyString => Some (Some 0)
  | String sign s' =>
      sgn ← (if decide (sign = "+"%char) then Some 1
             else if decide (sign = "-"%char) then Some (-1) else None);
      '(h, s') ← read_digits 2 0 s';
      s' ← expect ":" s';
      '(m, s') ← read_digits 2 0 s';
      guard_b ((h <=? 23) && (m <=? 59));;
      match s' with
      | EmptyString => Some (Some (sgn * (60 * h + m)))
      | _ => None
      end
  end.

Definition parse_time (s : string) : option (Z * Z * Z * Z * option Z) :=
  match s with
  | EmptyString => Some (0, 0, 0, 0, None)
  | String sep s' =>
      guard_b (bool_decide (sep = "T"%char ∨ sep = " "%char));;
      '(h, mi, sec, s') ← parse_clock s';
      '(ns, s') ← parse_fraction s';
      off ← parse_offset s';
      Some (h, mi, sec, ns, off)
  end.

Definition parse_iso8601 (raw : string) : option Ts.t :=
  '(y, m, d, s) ← parse_date raw;
  '(h, mi, sec, ns, off) ← parse_time s;
  let x := Ts.mk y m d h mi sec ns off in
  guard_b (Ts.valid x && (1678 <=? y) && (y <=? 2261));;
  Some x.

(** The texts pandas reads as NaT. *)
Definition nat_strings : list string := ["NaT"; "nat"; "NAT"; "nan"; "NaN"; "NAN"].

(** The parser of the examples: it reads the ISO 8601 texts above and
    the NaT texts, and takes no other text for a timestamp. *)
Definition iso8601_datetime_string (raw : string) : exc (option Ts.t) :=
  if bool_decide (raw = "" ∨ raw ∈ nat_strings) then Returns None
  else match parse_iso8601 raw with
       | Some x => Returns (Some x)
       | None => Raises ("Unknown datetime string format, unable to parse: " +:+ raw)
       end.

Global Instance iso8601 : DatetimeParser.
Proof.
  refine {| parse_datetime_string := iso8601_datetime_string |}.
  intros raw x. unfold iso8601_datetime_string, parse_iso8601.
  destruct (bool_decide _); [discriminate |].
  destruct (parse_date raw) as [[[[y m] d] s]|]; [| discriminate]. cbn.
  destruct (parse_time s) as [[[[[h mi] sec] ns] off]|]; [| discriminate]. cbn.
  destruct (Ts.valid _) eqn:Hv; [| discriminate]. cbn.
  destruct (_ && _); cbn; [| discriminate]. by intros [= <-].
Defined.

(** An ISO 8601 text written from its parts: the fraction digits (none:
    no fraction), and the offset as written. *)
Inductive offset_text : Type :=
  | NoOffset
  | Zulu
  | Signed (east : bool) (hours minutes : Z).

Definition offset_minutes (off : offset_text) : option Z :=
  match off with
  | NoOffset => None
  | Zulu => Some 0
  | Signed east h m => Some ((if east then 1 else -1) * (60 * h + m))
  end.

Definition write_offset (off : offset_text) : string :=
  match off with
  | NoOffset => ""
  | Zulu => "Z"
  | Signed east h m => (if east then "+" else "-") +:+ pad2 h +:+ ":" +:+ pad2 m
  end.

Definition write_digits (ds : list Z) : string :=
  foldr (λ d s, String (digit_char d) s) "" ds.

Definition write_fraction (ds : list Z) : string :=
  match ds with
  | [] => ""
  | _ => "." +:+ write_digits ds
  end.

(** The number the digits [ds] write after [acc], and the digits [ds]
    after the point in nanoseconds. *)
Definition digits_value (acc : Z) (ds : list Z) : Z :=
  foldl (λ acc d, 10 * acc + d) acc ds.

Definition fraction_ns (ds : list Z) : Z :=
  digits_value 0 ds * 10 ^ Z.of_nat (9 - length ds).

Definition write_date (y m d : Z) : string :=
  pad4 y +:+ "-" +:+ pad2 m +:+ "-" +:+ pad2 d.

Definition write_clock (h mi sec : Z) : string :=
  pad2 h +:+ ":" +:+ pad2 mi +:+ ":" +:+ pad2 sec.

Definition write_iso8601 (y m d : Z) (sep : ascii) (h mi sec : Z)
    (ds : list Z) (off : offset_text) : string :=
  write_date y m d +:+
  String sep (write_clock h mi sec +:+ write_fraction ds +:+ write_offset off).

(** The parts of such a text: a calendar day of the years [parse_iso8601]
    takes, a separator, a time of the day, at most nine fraction digits,
    an offset of less than a day. *)
Definition iso8601_parts (y m d : Z) (sep : ascii) (h mi sec : Z)
    (ds : list Z) (off : offset_text) : Prop :=
  1678 ≤ y ≤ 2261 ∧ 1 ≤ m ≤ 12 ∧ 1 ≤ d ≤ days_in_month y m ∧
  (sep = "T"%char ∨ sep = " "%char) ∧
  0 ≤ h ≤ 23 ∧ 0 ≤ mi ≤ 59 ∧ 0 ≤ sec ≤ 59 ∧
  Forall (λ d, 0 ≤ d ≤ 9) ds ∧ (length ds ≤ 9)%nat ∧
  match off with
  | Signed _ oh om => 0 ≤ oh ≤ 23 ∧ 0 ≤ om ≤ 59
  | _ => True
  end.

(** The text after the fraction does not go on with a digit or a point. *)
Definition ends_fraction (s : string) : Prop :=
  match s with
  | EmptyString => True
  | String c _ => digit_of c = None ∧ c ≠ "."%char
  end.

(** ** Data frames *)

(** A row of the merged raw table, columns
    [pid, timestamp, column3, mac_address, rssi, column6]. *)
Module Raw.
Record t := mk {
  pid : Z;
  timestamp : option string;
  column3 : option string;
  mac_address : option string;
  rssi : option Qc;
  column6 : option string
}.
End Raw.

Global Instance Raw_eq_dec : EqDecision Raw.t.
Proof. solve_decision. Defined.

(** A row of the table either script returns, columns
    [user_id, timestamp, mac_address, RSSI, power, year_month_day, hour,
     RSSI_1, ..., RSSI_25]; the last 25 are kept as a list in that order,
    of integers or of optional averages. *)
Module Frame.
Record t (V : Type) := mk {
  user_id : Z;
  timestamp : option Ts.t;
  mac_address : option string;
  RSSI : option Qc;
  power : option string;
  year_month_day : option string;
  hour : option Z;
  RSSI_n : list V
}.
Global Arguments mk {V} _ _ _ _ _ _ _ _.
Global Arguments user_id {V} _.
Global Arguments timestamp {V} _.
Global Arguments mac_address {V} _.
Global Arguments RSSI {V} _.
Global Arguments power {V} _.
Global Arguments year_month_day {V} _.
Global Arguments hour {V} _.
Global Arguments RSSI_n {V} _.

(** The sort and merge key [(user_id, timestamp)]. *)
Definition key {V} (r : t V) : Z * option Ts.t := (user_id r, timestamp r).

(** Column [RSSI_i], for [i] from 1. *)
Definition flag {V} (i : nat) (r : t V) : option V := RSSI_n r !! pred i.
End Frame.

(** ** Sorting: [sort_values(by=[...], kind='mergesort')]

    A bottom-up merge sort; [merge] takes from the left run on ties, and
    the left run always holds the earlier rows. *)
Section mergesort.
Context {A : Type} (le : A → A → bool).

Fixpoint merge (l1 : list A) : list A → list A :=
  fix merge_right (l2 : list A) : list A :=
    match l1, l2 with
    | [], _ => l2
    | _, [] => l1
    | x1 :: l1', x2 :: l2' =>
        if le x1 x2 then x1 :: merge l1' l2 else x2 :: merge_right l2'
    end.

Fixpoint merge_pairs (runs : list (list A)) : list (list A) :=
  match runs with
  | a :: b :: rest => merge a b :: merge_pairs rest
  | _ => runs
  end.

Fixpoint merge_all (fuel : nat) (runs : list (list A)) : list A :=
  match fuel with
  | O => concat runs
  | S fuel' =>
      match runs with
      | [] => []
      | [l] => l
      | _ => merge_all fuel' (merge_pairs runs)
      end
  end.

Definition mergesort (l : list A) : list A :=
  merge_all (length l) ((λ x, [x]) <$> l).
End mergesort.

(** Lexicographic order on the clock fields. *)
Fixpoint lex_leb (a b : list Z) : bool :=
  match a, b with
  | [], _ => true
  | _ :: _, [] => false
  | x :: a', y :: b' => (x <? y) || ((x =? y) && lex_leb a' b')
  end.

Definition ts_leb (x y : Ts.t) : bool := lex_leb (Ts.fields x) (Ts.fields y).

(** [na_position='last']: NaT sorts after every instant. *)
Definition nat_last_leb (x y : option Ts.t) : bool :=
  match x, y with
  | _, None => true
  | None, Some _ => false
  | Some a, Some b => ts_leb a b
  end.

Definition key_leb (k1 k2 : Z * option Ts.t) : bool :=
  (k1.1 <? k2.1) || ((k1.1 =? k2.1) && nat_last_leb k1.2 k2.2).

Definition row_leb {V} (r1 r2 : Frame.t V) : bool :=
  key_leb (Frame.key r1) (Frame.key r2).

(** ** The flag-append script, [Merging_BLEdata.py] *)
Module FlagAppend.
Section parser.
Context {parser : DatetimeParser}.

(** [pd.to_datetime(..., format='mixed', errors='coerce')], one element:
    a missing or unparseable text gives NaT. *)
Definition to_datetime_coerce (raw : option string) : option Ts.t :=
  raw ≫= to_datetime.

(** One row through the column operations of [transform_and_flag_data]
    that come before the sort. *)
Definition flag_row (r : Raw.t) : Frame.t Z :=
  let dt := tz_localize_None <$> to_datetime_coerce (Raw.timestamp r) in
  let rssi_target_col := Raw.mac_address r ≫= (setup_beacon_dictionary !!.) in
  Frame.mk
    (Raw.pid r)
    dt
    (Raw.mac_address r)
    (Raw.rssi r)
    (Raw.column6 r)
    (strftime_ymd <$> dt)
    (Ts.hour <$> dt)
    ((λ col, if decide (rssi_target_col = Some col) then 1 else 0) <$> rssi_cols).

(** The table [transform_and_flag_data] returns, which it does when [dt]
    is a datetime column (see [outcome]). *)
Definition transform_and_flag_data (df : list Raw.t) : list (Frame.t Z) :=
  mergesort row_leb (flag_row <$> df).

(** Step 3 of this script does nothing. *)
Definition convert_rssi_to_binary (df : list (Frame.t Z)) : list (Frame.t Z) := df.

Definition run (df : list Raw.t) : list (Frame.t Z) :=
  convert_rssi_to_binary (transform_and_flag_data df).

(** The column [dt] of line 95. *)
Definition dt (df : list Raw.t) : list (option Ts.t) :=
  (λ r, to_datetime_coerce (Raw.timestamp r)) <$> df.

(** Steps 2 and 3 on the merged table.  The [tz_localize] of line 98 is
    guarded, the [.dt.strftime] of line 105 is not: on a column that is
    no datetime column the transformation stops with its exception. *)
Definition outcome (df : list Raw.t) : exc (list (Frame.t Z)) :=
  if datetimelike (dt df) then Returns (run df)
  else Raises "Can only use .dt accessor with datetimelike values".

End parser.
End FlagAppend.

(** ** The pivot script, [scripts/Merging_BLEdata.py] *)

(** [mean] of a float column or row with [skipna]: the missing entries are
    left out, and the mean of nothing is missing. *)
Definition Qc_sum (l : list Qc) : Qc := foldr Qcplus (Qc_of_Z 0) l.

Definition mean (l : list (option Qc)) : option Qc :=
  match omap id l with
  | [] => None
  | v :: vs => Some (Qc_sum (v :: vs) / Qc_of_Z (Z.of_nat (length (v :: vs))))%Qc
  end.

(** [groupby(...).agg('first')]: the first entry that is not missing. *)
Definition first_valid {A} (l : list (option A)) : option A := head (omap id l).

Module Pivot.

(** The working table of [transform_and_pivot_data] before the pivot. *)
Record prepared := mk_prepared {
  user_id : Z;
  timestamp : option Ts.t;
  column3 : option string;
  mac_address : option string;
  RSSI : option Qc;
  power : option string;
  year_month_day : option string;
  hour : option Z;
  rssi_column : option string
}.

(** The index of the pivot table, and the key of the groups of
    [first_values]. *)
Abbreviation index_key := (Z * Ts.t * string * Z)%type.
Abbreviation group_key := (Z * Ts.t)%type.

Section parser.
Context {parser : DatetimeParser}.

(** [pd.to_datetime(..., format='mixed')], one element, with the default
    [errors='raise']: a missing entry gives NaT, an unparseable text
    raises. *)
Definition to_datetime_raise (raw : option string) : exc (option Ts.t) :=
  match raw with
  | None => Returns None
  | Some s => parse_datetime_string s
  end.

(** Lines 99 to 119, one row: date and hour are read before the timezone
    is removed. *)
Definition prepare_row (r : Raw.t) : exc prepared :=
  dt ← to_datetime_raise (Raw.timestamp r);
  mret (mk_prepared
    (Raw.pid r)
    (tz_localize_None <$> dt)
    (Raw.column3 r)
    (Raw.mac_address r)
    (Raw.rssi r)
    (Raw.column6 r)
    (strftime_ymd <$> dt)
    (Ts.hour <$> dt)
    (Raw.mac_address r ≫= (setup_beacon_dictionary !!.))).

(** Lines 99 to 119 on the table: the conversion of line 101 raises at
    the first text it cannot read, and the [.dt.strftime] of line 105
    raises on a column that is no datetime column. *)
Definition prepare (df : list Raw.t) : exc (list prepared) :=
  dt ← mapM (λ r, to_datetime_raise (Raw.timestamp r)) df;
  if datetimelike dt then mapM prepare_row df
  else Raises "Can only use .dt accessor with datetimelike values".

(** The row [prepare_row] returns when it does not raise. *)
Definition prepared_of (r : Raw.t) : prepared :=
  let dt := Raw.timestamp r ≫= to_datetime in
  mk_prepared (Raw.pid r) (tz_localize_None <$> dt) (Raw.column3 r)
    (Raw.mac_address r) (Raw.rssi r) (Raw.column6 r)
    (strftime_ymd <$> dt) (Ts.hour <$> dt)
    (Raw.mac_address r ≫= (setup_beacon_dictionary !!.)).

(** The timestamp text of a record is present and cannot be read. *)
Definition unparseable (r : Raw.t) : Prop :=
  ∃ raw e, Raw.timestamp r = Some raw ∧ parse_datetime_string raw = Raises e.

(** *** [pivot_table(index=[user_id, timestamp, year_month_day, hour],
        columns='rssi_column', values='RSSI', aggfunc='mean')] *)

(** A row takes part in the grouping only if none of its keys is
    missing. *)
Definition index_of (r : prepared) : option index_key :=
  t ← timestamp r; d ← year_month_day r; h ← hour r;
  Some (user_id r, t, d, h).

(** The readings of one group and one beacon column. *)
Definition group_readings (df : list prepared) (k : index_key) (col : string)
  : list (option Qc) :=
  RSSI <$> filter (λ r, index_of r = Some k ∧ rssi_column r = Some col) df.

(** An aggregated cell is kept only if its mean is not missing
    ([dropna]); the index of the pivot holds the groups with a kept
    cell. *)
Definition cell_index (r : prepared) : option index_key :=
  match rssi_column r, RSSI r with
  | Some _, Some _ => index_of r
  | _, _ => None
  end.

Definition index_leb (k1 k2 : index_key) : bool :=
  let '(u1, t1, d1, h1) := k1 in
  let '(u2, t2, d2, h2) := k2 in
  (u1 <? u2) || ((u1 =? u2) &&
    (negb (ts_leb t2 t1) || (ts_leb t1 t2 &&
      (String.ltb d1 d2 || (String.eqb d1 d2 && (h1 <=? h2)))))).

Definition pivot_index (df : list prepared) : list index_key :=
  mergesort index_leb (remove_dups (omap cell_index df)).

(** One row of [df_pivot] after "Ensure all RSSI columns exist": the
    group key and the 25 averages, missing where the group has no kept
    cell in that column. *)
Definition pivot_table (df : list prepared) : list (index_key * list (option Qc)) :=
  (λ k, (k, (λ col, mean (group_readings df k col)) <$> rssi_cols)) <$> pivot_index df.

(** *** [groupby(['user_id', 'timestamp']).agg({'mac_address': 'first',
        'power': 'first'})] *)

Definition group_of (r : prepared) : option group_key :=
  t ← timestamp r; Some (user_id r, t).

Definition group_leb (k1 k2 : group_key) : bool :=
  key_leb (k1.1, Some k1.2) (k2.1, Some k2.2).

Definition first_values (df : list prepared)
  : list (group_key * (option string * option string)) :=
  (λ k, let rows := filter (λ r, group_of r = Some k) df in
        (k, (first_valid (mac_address <$> rows), first_valid (power <$> rows))))
  <$> mergesort group_leb (remove_dups (omap group_of df)).

(** *** [df_pivot.merge(first_values, on=['user_id', 'timestamp'],
        how='left')], then the row mean and the column order *)

Definition result_row (k : index_key) (cells : list (option Qc))
    (fv : option string * option string) : Frame.t (option Qc) :=
  let '(u, t, d, h) := k in
  Frame.mk u (Some t) fv.1 (mean cells) fv.2 (Some d) (Some h) cells.

Definition merge_left (left : list (index_key * list (option Qc)))
    (right : list (group_key * (option string * option string)))
  : list (Frame.t (option Qc)) :=
  left ≫= (λ row,
    let '(k, cells) := row in
    match filter (λ fv, fv.1 = (k.1.1.1, k.1.1.2)) right with
    | [] => [result_row k cells (None, None)]
    | matches => (λ fv, result_row k cells fv.2) <$> matches
    end).

Definition transform_and_pivot_data (df : list Raw.t) : exc (list (Frame.t (option Qc))) :=
  df ← prepare df;
  mret (merge_left (pivot_table df) (first_values df)).

(** Step 3: [df[col] = df[col].notna().astype(int)] for the 25 columns. *)
Definition notna_int (v : option Qc) : Z :=
  match v with Some _ => 1 | None => 0 end.

Definition binary_row (r : Frame.t (option Qc)) : Frame.t Z :=
  Frame.mk (Frame.user_id r) (Frame.timestamp r) (Frame.mac_address r)
    (Frame.RSSI r) (Frame.power r) (Frame.year_month_day r) (Frame.hour r)
    (notna_int <$> Frame.RSSI_n r).

Definition convert_rssi_to_binary (df : list (Frame.t (option Qc))) : list (Frame.t Z) :=
  binary_row <$> df.

Definition run (df : list Raw.t) : exc (list (Frame.t Z)) :=
  convert_rssi_to_binary <$> transform_and_pivot_data df.

(** The [(user_id, timestamp)] part of the pivot's index, in its order. *)
Definition output_groups (df : list prepared) : list group_key :=
  (λ k : index_key, (k.1.1.1, k.1.1.2)) <$> pivot_index df.

End parser.
End Pivot.

(** ** Vocabulary of the statements *)

Section vocabulary.
Context {parser : DatetimeParser}.

(** The key [(user_id, timestamp)] a record gets once its timestamp is
    parsed and the timezone removed; the timestamp is [None] for a record
    whose text is missing or does not parse. *)
Definition record_key (r : Raw.t) : Z * option Ts.t :=
  (Raw.pid r, tz_localize_None <$> (Raw.timestamp r ≫= to_datetime)).

(** The records of one group, in input order. *)
Definition group_records (df : list Raw.t) (key : Z * option Ts.t) : list Raw.t :=
  filter (λ r, record_key r = key) df.

(** The signal strength cells of the records of a group that carry the
    MAC address of slot [i]. *)
Definition slot_readings (df : list Raw.t) (key : Z * option Ts.t) (i : nat)
  : list (option Qc) :=
  Raw.rssi <$> filter (λ r, mac_slot (Raw.mac_address r) = Some i) (group_records df key).

Definition slot_average (df : list Raw.t) (key : Z * option Ts.t) (i : nat) : option Qc :=
  mean (slot_readings df key i).

(** Slot [i] has a reading in the group: some record of the group carries
    that slot's MAC address and a signal strength. *)
Definition has_reading (df : list Raw.t) (key : Z * option Ts.t) (i : nat) : Prop :=
  ∃ r, r ∈ group_records df key ∧
       mac_slot (Raw.mac_address r) = Some i ∧ is_Some (Raw.rssi r).

Global Instance has_reading_dec df key i : Decision (has_reading df key i).
Proof.
  refine (cast_if (decide (Exists (λ r, mac_slot (Raw.mac_address r) = Some i ∧
                                        is_Some (Raw.rssi r)) (group_records df key))));
    unfold has_reading; rewrite Exists_exists in *; naive_solver.
Defined.

(** The plain arithmetic mean of a list of numbers, undefined on the empty
    list. *)
Definition arith_mean (l : list Qc) : option Qc :=
  match l with
  | [] => None
  | _ => Some (Qc_sum l / Qc_of_Z (Z.of_nat (length l)))%Qc
  end.

(** The row the pivot script builds for the group [(u, t)]. *)
Definition group_row (df : list Raw.t) (g : Z * Ts.t) : Frame.t (option Qc) :=
  let key := (g.1, Some g.2) in
  let cells := slot_average df key <$> seq 1 25 in
  Frame.mk g.1 (Some g.2)
    (first_valid (Raw.mac_address <$> group_records df key))
    (mean cells)
    (first_valid (Raw.column6 <$> group_records df key))
    (Some (strftime_ymd g.2)) (Some (Ts.hour g.2)) cells.

End vocabulary.

(** ** Example tables *)

Definition reading (n : Z) : option Qc := Some (Qc_of_Z n).

(** The two records of the spec's scenario: one user, one instant, beacons
    1 and 2. *)
Definition scenario : list Raw.t :=
  [ Raw.mk 1 (Some "2024-03-01T08:15:30.5") (Some "-")
      (Some "F7:7F:78:76:7E:F3") (reading (-60)) (Some "-");
    Raw.mk 1 (Some "2024-03-01T08:15:30.5") (Some "-")
      (Some "C6:CD:5E:3D:2F:BB") (reading (-55)) (Some "-") ].

(** A record of beacon 1 at one instant, and at a later instant a record
    of a MAC address that is not in the dictionary. *)
Definition unknown_record : Raw.t :=
  Raw.mk 1 (Some "2024-03-01T08:15:31.5") (Some "-")
    (Some "00:00:00:00:00:00") (reading (-70)) (Some "-").

Definition unknown_group : list Raw.t :=
  [ Raw.mk 1 (Some "2024-03-01T08:15:30.5") (Some "-")
      (Some "F7:7F:78:76:7E:F3") (reading (-60)) (Some "-");
    unknown_record ].

(** Beacon 1 with a reading, beacon 2 with an empty signal strength cell. *)
Definition missing_reading : list Raw.t :=
  [ Raw.mk 1 (Some "2024-03-01T08:15:30.5") (Some "-")
      (Some "F7:7F:78:76:7E:F3") (reading (-60)) (Some "-");
    Raw.mk 1 (Some "2024-03-01T08:15:30.5") (Some "-")
      (Some "C6:CD:5E:3D:2F:BB") None (Some "-") ].

(** The first record of the group has an empty power cell. *)
Definition missing_power : list Raw.t :=
  [ Raw.mk 1 (Some "2024-03-01T08:15:30.5") (Some "-")
      (Some "F7:7F:78:76:7E:F3") (reading (-60)) None;
    Raw.mk 1 (Some "2024-03-01T08:15:30.5") (Some "-")
      (Some "C6:CD:5E:3D:2F:BB") (reading (-55)) (Some "4") ].

(** A record whose timestamp text is not a timestamp. *)
Definition bad_timestamp : list Raw.t :=
  [ Raw.mk 1 (Some "not a time") (Some "-")
      (Some "F7:7F:78:76:7E:F3") (reading (-60)) (Some "-") ].


(** ** Reading the input files and running the scripts *)

(** [str.startswith] and [str.endswith]. *)
Fixpoint startswith (s prefix : string) : bool :=
  match prefix, s with
  | EmptyString, _ => true
  | String _ _, EmptyString => false
  | String a prefix', String b s' => Ascii.eqb a b && startswith s' prefix'
  end.

Fixpoint endswith (s suffix : string) : bool :=
  String.eqb s suffix ||
  match s with
  | EmptyString => false
  | String _ s' => endswith s' suffix
  end.

(** What [pd.read_csv(..., header=None)] makes of a file: a table of six
    columns, whose rows are read as raw records, or a table of another
    width.  The flag-append script states the cell types and a file with
    a cell of another type fails to read; the pivot script states none,
    and its files are taken to hold cells of the raw types. *)
Inductive parsed : Type :=
  | SixColumns (rows : list Raw.t)
  | OtherWidth (ncols : nat).

(** The data set directory, once [os.listdir] has listed it: the names
    it returns, in its order; what reading each name as a headerless CSV
    file gives; and, for the pivot script, whether [BLEdata2.csv] exists
    and what reading it with its header gives, its columns taken to be
    the six raw ones.  A directory that cannot be listed is not one of
    these: there both loaders raise at [os.listdir], before any file is
    read. *)
Record directory := mk_directory {
  listdir : list string;
  read_csv : string → exc parsed;
  merged_exists : bool;
  read_merged : exc (list Raw.t)
}.

(** [df_temp.columns = ['pid', 'timestamp', 'column3', 'mac_address',
    'rssi', 'column6']]: six names fit six columns only. *)
Definition set_columns (t : parsed) : exc (list Raw.t) :=
  match t with
  | SixColumns rows => Returns rows
  | OtherWidth n => Raises "Length mismatch"
  end.

(** The loop over [csv_files]: a file that reads and takes the six names
    is appended to [all_dfs], any exception skips the file. *)
Definition read_files (d : directory) (csv_files : list string) : list (list Raw.t) :=
  foldl (λ all_dfs csv_file,
           match read_csv d csv_file ≫= set_columns with
           | Returns df_temp => all_dfs ++ [df_temp]
           | Raises _ => all_dfs
           end) [] csv_files.

(** [pd.concat(all_dfs, ignore_index=True)] if [all_dfs] is not empty,
    else [None]. *)
Definition concat_frames (all_dfs : list (list Raw.t)) : option (list Raw.t) :=
  match all_dfs with
  | [] => None
  | _ => Some (concat all_dfs)
  end.

Module FlagAppendMain.
Section parser.
Context {parser : DatetimeParser}.

Definition selected (file : string) : bool :=
  endswith file ".csv" && startswith file "user-ble-id_".

Definition merge_individual_csv_files (d : directory) : option (list Raw.t) :=
  let csv_files := filter (λ file, selected file = true) (listdir d) in
  concat_frames (read_files d csv_files).

(** [save_output] writes the table and returns it. *)
Definition save_output (df : list (Frame.t Z)) : list (Frame.t Z) := df.

(** What [main] ends with: nothing to do ([None]) when the loader found
    nothing, the exception of step 2, or the table written to the output
    file. *)
Definition main (d : directory) : exc (option (list (Frame.t Z))) :=
  match merge_individual_csv_files d with
  | None => mret None
  | Some df =>
      df ← FlagAppend.outcome df;
      mret (Some (save_output df))
  end.

End parser.
End FlagAppendMain.

Module PivotMain.
Section parser.
Context {parser : DatetimeParser}.

Definition previous_outputs : list string :=
  ["BLEdata.csv"; "BLEdata2.csv"; "BLEdata3.csv"].

Definition selected (file : string) : bool :=
  endswith file ".csv" && bool_decide (file ∉ previous_outputs).

(** An existing [BLEdata2.csv] is read alone, outside any [try]; otherwise
    the other CSV files are merged as in the flag-append script. *)
Definition merge_individual_csv_files (d : directory) : exc (option (list Raw.t)) :=
  if merged_exists d then
    df ← read_merged d; mret (Some df)
  else
    let csv_files := filter (λ file, selected file = true) (listdir d) in
    mret (concat_frames (read_files d csv_files)).

Definition save_output (df : list (Frame.t Z)) : list (Frame.t Z) := df.

(** The table [main] writes to the output file, if it writes one; an
    exception of a step ends the run. *)
Definition main (d : directory) : exc (option (list (Frame.t Z))) :=
  loaded ← merge_individual_csv_files d;
  match loaded with
  | None => mret None
  | Some df =>
      df ← Pivot.transform_and_pivot_data df;
      mret (Some (save_output (Pivot.convert_rssi_to_binary df)))
  end.

End parser.
End PivotMain.

(** The files of a list of names that read as six-column tables, in the
    order of the list. *)
Definition readable (d : directory) (file : string) : option (list Raw.t) :=
  match read_csv d file ≫= set_columns with
  | Returns rows => Some rows
  | Raises _ => None
  end.

(** The same directory with another listing. *)
Definition with_listdir (d : directory) (names : list string) : directory :=
  mk_directory names (read_csv d) (merged_exists d) (read_merged d).

(** A directory for the examples: two export files of one record each, a
    file that does not read, a note, and the output of an earlier run. *)
Definition example_directory : directory :=
  mk_directory
    ["user-ble-id_2.csv"; "notes.txt"; "user-ble-id_broken.csv";
     "BLEdata3.csv"; "user-ble-id_1.csv"]
    (λ file,
       if String.eqb file "user-ble-id_1.csv" then
         Returns (SixColumns
           [Raw.mk 1 (Some "2024-03-01T08:15:30.5") (Some "-")
              (Some "F7:7F:78:76:7E:F3") (reading (-60)) (Some "-")])
       else if String.eqb file "user-ble-id_2.csv" then
         Returns (SixColumns
           [Raw.mk 2 (Some "2024-03-01T08:15:30.5") (Some "-")
              (Some "C6:CD:5E:3D:2F:BB") (reading (-55)) (Some "-")])
       else if String.eqb file "BLEdata3.csv" then Returns (OtherWidth 32)
       else Raises "No columns to parse from file")
    false
    (Raises "No such file or directory").

(** A user's records with a good and with a bad timestamp text. *)
Definition mixed_timestamps : list Raw.t :=
  [ Raw.mk 1 (Some "not a time") (Some "-")
      (Some "F7:7F:78:76:7E:F3") (reading (-60)) (Some "-");
    Raw.mk 1 (Some "2024-03-01T08:15:30.5") (Some "-")
      (Some "C6:CD:5E:3D:2F:BB") (reading (-55)) (Some "-");
    Raw.mk 1 None (Some "-")
      (Some "C6:CD:5E:3D:2F:BB") (reading (-50)) (Some "-") ].

(** The records of [unknown_group] in the other order. *)
Definition unknown_group_swapped : list Raw.t :=
  [ unknown_record;
    Raw.mk 1 (Some "2024-03-01T08:15:30.5") (Some "-")
      (Some "F7:7F:78:76:7E:F3") (reading (-60)) (Some "-") ].

(** Two users at one instant and one of them at a second instant, all
    of registered beacons with readings. *)
Definition example_agree : list Raw.t :=
  [ Raw.mk 2 (Some "2024-03-01T08:15:30.5") (Some "-")
      (Some "C6:CD:5E:3D:2F:BB") (reading (-55)) None;
    Raw.mk 1 (Some "2024-03-01T08:15:31") (Some "-")
      (Some "D4:33:FD:F4:C2:A8") (reading (-71)) (Some "-");
    Raw.mk 1 (Some "2024-03-01T08:15:30.5") (Some "-")
      (Some "F7:7F:78:76:7E:F3") (reading (-60)) (Some "-") ].

(** * Properties *)

Section properties.
Context {parser : DatetimeParser}.

(** ** The beacon dictionary *)

Lemma dict_literal_lookup_from (entries : list (string * string))
    (d : gmap string string) k v :
  NoDup entries.*1 →
  foldl (λ d kv, insert kv.1 kv.2 d) d entries !! k = Some v ↔
  (k, v) ∈ entries ∨ ((k ∉ entries.*1) ∧ d !! k = Some v).
Proof.
  revert d. induction entries as [|[k0 v0] entries IH]; intros d Hnd; simpl.
  - split; [intros H; right; split; [apply not_elem_of_nil | done] |].
    intros [H|[_ H]]; [by apply elem_of_nil in H | done].
  - apply list.NoDup_cons in Hnd as [Hk0 Hnd]. rewrite (IH _ Hnd).
    rewrite elem_of_cons, not_elem_of_cons. simpl. split.
    + intros [H|[Hk H]]; [by left; right |].
      destruct (decide (k0 = k)) as [->|Hne].
      * rewrite lookup_insert_eq in H. left; left. congruence.
      * rewrite lookup_insert_ne in H by done. right. split; [split|]; done.
    + intros [[H|H]|[[Hne Hk] H]].
      * injection H as -> ->. right. split; [done | apply lookup_insert_eq].
      * by left.
      * right. split; [done |]. by rewrite lookup_insert_ne.
Qed.

Lemma dict_literal_lookup entries k v :
  NoDup entries.*1 →
  dict_literal entries !! k = Some v ↔ (k, v) ∈ entries.
Proof.
  intros Hnd. unfold dict_literal. rewrite dict_literal_lookup_from by done.
  rewrite lookup_empty. split; [intros [?|[_ ?]]; done | by left].
Qed.

Lemma NoDup_known_macs : NoDup known_macs.
Proof. apply (bool_decide_unpack _). by vm_compute. Qed.

Lemma NoDup_rssi_cols : NoDup rssi_cols.
Proof. apply (bool_decide_unpack _). by vm_compute. Qed.

Lemma beacon_lookup mac col :
  setup_beacon_dictionary !! mac = Some col ↔ (mac, col) ∈ beacon_entries.
Proof. apply dict_literal_lookup, NoDup_known_macs. Qed.

Lemma beacon_lookup_known mac :
  is_Some (setup_beacon_dictionary !! mac) ↔ mac ∈ known_macs.
Proof.
  unfold known_macs. rewrite list_elem_of_fmap. split.
  - intros [col H%beacon_lookup]. by exists (mac, col).
  - intros [[m col] [-> H]]. exists col. by apply beacon_lookup.
Qed.

Lemma beacon_columns : beacon_entries.*2 = rssi_cols.
Proof. reflexivity. Qed.

Lemma known_slots : slot_for <$> known_macs = Some <$> seq 1 25.
Proof. by vm_compute. Qed.

(** ** Merge sort *)

Section mergesort_facts.
Context {A : Type} (le : A → A → bool).

Let R (x y : A) : Prop := le x y = true.

Lemma merge_nil_l l : merge le [] l = l.
Proof. by destruct l. Qed.

Lemma merge_nil_r l : merge le l [] = l.
Proof. by destruct l. Qed.

Lemma merge_cons x1 l1 x2 l2 :
  merge le (x1 :: l1) (x2 :: l2) =
  if le x1 x2 then x1 :: merge le l1 (x2 :: l2)
  else x2 :: merge le (x1 :: l1) l2.
Proof. reflexivity. Qed.

Lemma merge_Permutation l1 l2 : merge le l1 l2 ≡ₚ l1 ++ l2.
Proof.
  revert l2. induction l1 as [|x1 l1 IH1]; intros l2; [by rewrite merge_nil_l |].
  induction l2 as [|x2 l2 IH2].
  - by rewrite merge_nil_r, app_nil_r.
  - rewrite merge_cons. destruct (le x1 x2).
    + simpl. by rewrite IH1.
    + rewrite IH2. by rewrite <-Permutation_middle.
Qed.

Lemma merge_pairs_Permutation runs :
  concat (merge_pairs le runs) ≡ₚ concat runs.
Proof.
  induction runs as [runs IH] using (induction_ltof1 _ length).
  destruct runs as [|a [|b rest]]; [done | done |].
  simpl. rewrite merge_Permutation, IH, (assoc_L (++)); [done |].
  unfold ltof. simpl. lia.
Qed.

Lemma merge_pairs_length runs :
  (length (merge_pairs le runs) ≤ S (length runs) / 2)%nat.
Proof.
  induction runs as [runs IH] using (induction_ltof1 _ length).
  destruct runs as [|a [|b rest]]; [simpl; lia | simpl; lia |].
  cbn [merge_pairs length].
  assert (length (merge_pairs le rest) ≤ S (length rest) / 2)%nat as Hle
    by (apply IH; unfold ltof; simpl; lia).
  change (S (S (S (length rest)))) with (1 * 2 + S (length rest))%nat.
  rewrite Nat.div_add_l by lia. lia.
Qed.

Lemma merge_all_Permutation fuel runs :
  merge_all le fuel runs ≡ₚ concat runs.
Proof.
  revert runs. induction fuel as [|fuel IH]; intros runs; [done |].
  destruct runs as [|a [|b rest]]; [done | simpl; by rewrite app_nil_r |].
  cbn [merge_all]. rewrite IH. apply merge_pairs_Permutation.
Qed.

Lemma mergesort_Permutation l : mergesort le l ≡ₚ l.
Proof.
  unfold mergesort. rewrite merge_all_Permutation.
  induction l as [|x l IH]; [done |]. simpl. by rewrite IH.
Qed.

Lemma mergesort_length l : length (mergesort le l) = length l.
Proof. by rewrite mergesort_Permutation. Qed.

Lemma mergesort_elem_of l x : x ∈ mergesort le l ↔ x ∈ l.
Proof. by rewrite mergesort_Permutation. Qed.

Lemma mergesort_NoDup l : NoDup l → NoDup (mergesort le l).
Proof. by rewrite mergesort_Permutation. Qed.

(** *** Order and stability, for a total preorder *)

Hypothesis le_total : ∀ x y, le x y = true ∨ le y x = true.
Hypothesis le_trans : ∀ x y z, le x y = true → le y z = true → le x z = true.

Lemma merge_sorted l1 l2 :
  StronglySorted R l1 → StronglySorted R l2 → StronglySorted R (merge le l1 l2).
Proof.
  revert l2. induction l1 as [|x1 l1 IH1]; intros l2 H1 H2; [by rewrite merge_nil_l |].
  induction l2 as [|x2 l2 IH2]; [by rewrite merge_nil_r |].
  apply StronglySorted_inv in H1 as [H1 Hx1].
  apply StronglySorted_inv in H2 as [H2 Hx2].
  rewrite merge_cons. destruct (le x1 x2) eqn:Hle.
  - constructor; [apply IH1; [done | by constructor] |].
    rewrite merge_Permutation. apply Forall_app. split; [done |].
    constructor; [done |].
    eapply Forall_impl; [exact Hx2 |]. intros y Hy. by eapply le_trans.
  - assert (R x2 x1) as Hge by (destruct (le_total x1 x2); [congruence | done]).
    constructor; [by apply IH2 |].
    rewrite merge_Permutation. apply Forall_app. split; [| done].
    constructor; [done |].
    eapply Forall_impl; [exact Hx1 |]. intros y Hy. by eapply le_trans.
Qed.

Lemma merge_pairs_sorted runs :
  Forall (StronglySorted R) runs → Forall (StronglySorted R) (merge_pairs le runs).
Proof.
  induction runs as [runs IH] using (induction_ltof1 _ length). intros Hs.
  destruct runs as [|a [|b rest]]; [done | done |].
  apply Forall_cons in Hs as [Ha Hs]. apply Forall_cons in Hs as [Hb Hs].
  simpl. constructor; [by apply merge_sorted |].
  apply IH; [unfold ltof; simpl; lia | done].
Qed.

Lemma merge_all_sorted fuel runs :
  (length runs ≤ S fuel)%nat →
  Forall (StronglySorted R) runs → StronglySorted R (merge_all le fuel runs).
Proof.
  revert runs. induction fuel as [|fuel IH]; intros runs Hlen Hs.
  - destruct runs as [|a [|b rest]]; simpl in *; [constructor | | lia].
    rewrite app_nil_r. by apply Forall_cons in Hs as [Ha _].
  - destruct runs as [|a [|b rest]]; [constructor | by apply Forall_cons in Hs as [Ha _] |].
    cbn [merge_all]. apply IH; [| by apply merge_pairs_sorted].
    pose proof (merge_pairs_length (a :: b :: rest)) as Hl.
    cbn [length] in Hl, Hlen.
    assert (S (S (S (length rest))) / 2 < S (S (length rest)))%nat; [| lia].
    apply Nat.Div0.div_lt_upper_bound. lia.
Qed.

Lemma mergesort_sorted l : StronglySorted R (mergesort le l).
Proof.
  apply merge_all_sorted.
  - rewrite length_fmap. lia.
  - apply Forall_fmap, Forall_true. intros x. repeat constructor.
Qed.

(** A class of mutually ordered elements keeps its order. *)
Section stable.
Context (P : A → Prop) `{!∀ x, Decision (P x)}.
Hypothesis P_le : ∀ x y, P x → P y → le x y = true.

Lemma merge_filter l1 l2 :
    StronglySorted R l1 →
    filter P (merge le l1 l2) = filter P l1 ++ filter P l2.
  Proof.
    revert l2. induction l1 as [|x1 l1 IH1]; intros l2 H1; [by rewrite merge_nil_l |].
    induction l2 as [|x2 l2 IH2]; [by rewrite merge_nil_r, app_nil_r |].
    rewrite merge_cons. destruct (le x1 x2) eqn:Hle.
    - apply StronglySorted_inv in H1 as [H1 Hx1].
      rewrite !(filter_cons P x1). destruct (decide (P x1)); simpl; by rewrite IH1.
    - rewrite !(filter_cons P x2), IH2. destruct (decide (P x2)) as [HP2|]; [| done].
      assert (filter P (x1 :: l1) = []) as ->; [| done].
      apply StronglySorted_inv in H1 as [H1 Hx1].
      assert (Forall (λ y, ¬ P y) (x1 :: l1)) as Hnone.
      { assert (∀ y, R x1 y → ¬ P y) as Hno.
        { intros y Hy HPy. pose proof (P_le y x2 HPy HP2) as Hyx.
          pose proof (le_trans _ _ _ Hy Hyx). congruence. }
        constructor.
        - apply Hno. destruct (le_total x1 x1); done.
        - eapply Forall_impl; [exact Hx1 |]. done. }
      clear -Hnone. induction Hnone as [|y l Hy _ IH]; [done |].
      by rewrite filter_cons_False.
  Qed.

Lemma merge_pairs_filter runs :
    Forall (StronglySorted R) runs →
    filter P (concat (merge_pairs le runs)) = filter P (concat runs).
  Proof.
    induction runs as [runs IH] using (induction_ltof1 _ length). intros Hs.
    destruct runs as [|a [|b rest]]; [done | done |].
    apply Forall_cons in Hs as [Ha Hs]. apply Forall_cons in Hs as [Hb Hs].
    simpl. rewrite !filter_app, merge_filter by done.
    rewrite IH; [by rewrite (assoc_L (++)) | unfold ltof; simpl; lia | done].
  Qed.

Lemma merge_all_filter fuel runs :
    (length runs ≤ S fuel)%nat →
    Forall (StronglySorted R) runs →
    filter P (merge_all le fuel runs) = filter P (concat runs).
  Proof.
    revert runs. induction fuel as [|fuel IH]; intros runs Hlen Hs; [done |].
    destruct runs as [|a [|b rest]]; [done | simpl; by rewrite app_nil_r |].
    cbn [merge_all]. rewrite IH.
    - by apply merge_pairs_filter.
    - pose proof (merge_pairs_length (a :: b :: rest)) as Hl.
      cbn [length] in Hl, Hlen.
      assert (S (S (S (length rest))) / 2 < S (S (length rest)))%nat; [| lia].
      apply Nat.Div0.div_lt_upper_bound. lia.
    - by apply merge_pairs_sorted.
  Qed.

Lemma mergesort_filter l : filter P (mergesort le l) = filter P l.
  Proof.
    unfold mergesort. rewrite merge_all_filter.
    - f_equal. induction l as [|x l IH]; [done |]. csimpl. by rewrite IH.
    - rewrite length_fmap. lia.
    - apply Forall_fmap, Forall_true. intros x. repeat constructor.
  Qed.
End stable.
End mergesort_facts.

(** ** The sort key *)

Ltac bool_prop :=
  repeat first
    [ rewrite orb_true_iff in * | rewrite andb_true_iff in *
    | rewrite Z.ltb_lt in * | rewrite Z.eqb_eq in * | rewrite Z.leb_le in * ].

Lemma lex_leb_total a b : lex_leb a b = true ∨ lex_leb b a = true.
Proof.
  revert b. induction a as [|x a IH]; intros [|y b]; simpl; auto.
  destruct (IH b) as [H|H]; rewrite H; bool_prop; lia.
Qed.

Lemma lex_leb_trans a b c :
  lex_leb a b = true → lex_leb b c = true → lex_leb a c = true.
Proof.
  revert b c. induction a as [|x a IH]; intros [|y b] [|z c]; simpl; try done.
  intros H1 H2. bool_prop.
  destruct H1 as [H1|[-> H1]], H2 as [H2|[-> H2]]; try (left; lia).
  right. split; [done |]. by eapply IH.
Qed.

Lemma lex_leb_refl a : lex_leb a a = true.
Proof. destruct (lex_leb_total a a); done. Qed.

Lemma nat_last_leb_total x y : nat_last_leb x y = true ∨ nat_last_leb y x = true.
Proof. destruct x, y; simpl; auto. apply lex_leb_total. Qed.

Lemma nat_last_leb_trans x y z :
  nat_last_leb x y = true → nat_last_leb y z = true → nat_last_leb x z = true.
Proof. destruct x, y, z; simpl; try done. apply lex_leb_trans. Qed.

Lemma key_leb_total k1 k2 : key_leb k1 k2 = true ∨ key_leb k2 k1 = true.
Proof.
  unfold key_leb.
  destruct (nat_last_leb_total k1.2 k2.2) as [H|H]; rewrite H; bool_prop; lia.
Qed.

Lemma key_leb_trans k1 k2 k3 :
  key_leb k1 k2 = true → key_leb k2 k3 = true → key_leb k1 k3 = true.
Proof.
  unfold key_leb. intros H1 H2. bool_prop.
  destruct H1 as [H1|[H1 H1']], H2 as [H2|[H2 H2']]; try (left; lia).
  right. split; [lia |]. by eapply nat_last_leb_trans.
Qed.

Lemma key_leb_refl k : key_leb k k = true.
Proof. destruct (key_leb_total k k); done. Qed.

(** What [key_leb] says: smaller user first; for one user, earlier instant
    first and NaT last. *)
Lemma key_leb_spec u1 t1 u2 t2 :
  key_leb (u1, t1) (u2, t2) = true ↔
  u1 < u2 ∨ (u1 = u2 ∧
    match t1, t2 with
    | _, None => True
    | None, Some _ => False
    | Some a, Some b => lex_leb (Ts.fields a) (Ts.fields b) = true
    end).
Proof.
  unfold key_leb. simpl. bool_prop.
  destruct t1, t2; simpl; unfold ts_leb; intuition congruence.
Qed.

(** ** The flag-append script *)

Lemma flag_row_flags_length r :
  length (Frame.RSSI_n (FlagAppend.flag_row r)) = 25%nat.
Proof. reflexivity. Qed.

Lemma rssi_cols_lookup_inj i j col :
  rssi_cols !! i = Some col → rssi_cols !! j = Some col → i = j.
Proof. apply NoDup_lookup, NoDup_rssi_cols. Qed.

Lemma column_slot_Some col i :
  column_slot col = Some i ↔ (∃ j, i = S j ∧ rssi_cols !! j = Some col).
Proof.
  unfold column_slot. rewrite fmap_Some. split.
  - intros [[j c] [Hf ->]]. apply list_find_Some in Hf as (Hj & -> & _).
    by exists j.
  - intros (j & -> & Hj).
    destruct (list_find_elem_of (λ c, c = col) rssi_cols col) as [[j' c] Hf];
      [by eapply list_elem_of_lookup_2 | done |].
    exists (j', c). split; [done |]. simpl. f_equal.
    apply list_find_Some in Hf as (Hj' & -> & _).
    by eapply rssi_cols_lookup_inj.
Qed.

Lemma column_slot_None col : column_slot col = None ↔ col ∉ rssi_cols.
Proof.
  unfold column_slot. rewrite fmap_None, list_find_None, Forall_forall.
  split; [intros H Hin; by apply (H col) | intros H c Hc ->; done].
Qed.

Lemma slot_for_range mac i : slot_for mac = Some i → (1 ≤ i ≤ 25)%nat.
Proof.
  unfold slot_for. intros (col & _ & Hc)%bind_Some.
  apply column_slot_Some in Hc as (j & -> & Hj).
  apply lookup_lt_Some in Hj. change (length rssi_cols) with 25%nat in Hj. lia.
Qed.

Lemma mac_slot_range mac i : mac_slot mac = Some i → (1 ≤ i ≤ 25)%nat.
Proof. destruct mac; [apply slot_for_range | done]. Qed.

Lemma slot_for_is_Some mac : is_Some (slot_for mac) ↔ mac ∈ known_macs.
Proof.
  rewrite <-beacon_lookup_known. unfold slot_for. split.
  - intros [i (col & Hd & _)%bind_Some]. by exists col.
  - intros [col Hd]. rewrite Hd. simpl.
    assert (col ∈ rssi_cols) as Hin.
    { rewrite <-beacon_columns. apply beacon_lookup in Hd.
      apply list_elem_of_fmap. by exists (mac, col). }
    destruct (column_slot col) eqn:Hc; [done |].
    by apply column_slot_None in Hc.
Qed.

Lemma slot_for_None mac : slot_for mac = None ↔ mac ∉ known_macs.
Proof. rewrite <-slot_for_is_Some, eq_None_not_Some. done. Qed.

(** The dictionary sends a MAC address to column [RSSI_i] exactly when [i]
    is its slot. *)
Lemma slot_for_column mac j col :
  rssi_cols !! j = Some col →
  setup_beacon_dictionary !! mac = Some col ↔ slot_for mac = Some (S j).
Proof.
  intros Hj. unfold slot_for. split.
  - intros ->. simpl. apply column_slot_Some. by exists j.
  - intros (c & Hd & Hc)%bind_Some. apply column_slot_Some in Hc as (j' & [= <-] & Hj').
    congruence.
Qed.

Lemma target_column_slot (mac : option string) j col :
  rssi_cols !! j = Some col →
  mac ≫= (setup_beacon_dictionary !!.) = Some col ↔ mac_slot mac = Some (S j).
Proof.
  intros Hj. destruct mac as [m|]; simpl; [by apply slot_for_column | done].
Qed.

Lemma flag_row_flag r i :
  (1 ≤ i ≤ 25)%nat →
  Frame.flag i (FlagAppend.flag_row r) =
  Some (if decide (mac_slot (Raw.mac_address r) = Some i) then 1 else 0).
Proof.
  intros Hi. unfold Frame.flag, FlagAppend.flag_row. cbn [Frame.RSSI_n].
  destruct (lookup_lt_is_Some_2 rssi_cols (pred i)) as [col Hcol];
    [change (length rssi_cols) with 25%nat; lia |].
  rewrite list_lookup_fmap, Hcol. simpl. f_equal.
  pose proof (target_column_slot (Raw.mac_address r) _ _ Hcol) as Hiff.
  replace (S (pred i)) with i in Hiff by lia.
  repeat case_decide; tauto.
Qed.

Lemma flag_row_flags r :
  Frame.RSSI_n (FlagAppend.flag_row r) =
  match mac_slot (Raw.mac_address r) with
  | Some i => one_hot i
  | None => no_flags
  end.
Proof.
  apply list_eq. intros j.
  destruct (decide (j < 25)%nat) as [Hj|Hj].
  - pose proof (flag_row_flag r (S j) ltac:(lia)) as Hf.
    unfold Frame.flag in Hf. simpl pred in Hf. rewrite Hf.
    destruct (mac_slot (Raw.mac_address r)) as [i|] eqn:Hs.
    + unfold one_hot. destruct (decide (pred i = j)) as [<-|Hne].
      * assert (1 ≤ i)%nat by (apply mac_slot_range in Hs; lia).
        rewrite list_lookup_insert_eq by (unfold no_flags; rewrite length_replicate; lia).
        rewrite decide_True; [done | f_equal; lia].
      * rewrite list_lookup_insert_ne by done.
        unfold no_flags. rewrite lookup_replicate_2 by lia.
        rewrite decide_False; [done |]. intros [= ->]. by apply Hne.
    + unfold no_flags. rewrite lookup_replicate_2 by lia. done.
  - rewrite !lookup_ge_None_2; [done | |].
    + destruct (mac_slot (Raw.mac_address r)); unfold one_hot, no_flags;
        rewrite ?length_insert, length_replicate; lia.
    + rewrite flag_row_flags_length. lia.
Qed.

Lemma run_Permutation df :
  FlagAppend.run df ≡ₚ FlagAppend.flag_row <$> df.
Proof. apply mergesort_Permutation. Qed.

(** *** Datetime columns *)

Lemma datetimelike_spec col :
  datetimelike col = true ↔
  ∀ x y, Some x ∈ col → Some y ∈ col → Ts.tz x = Ts.tz y.
Proof.
  assert (∀ x, x ∈ omap id col ↔ Some x ∈ col) as Hin.
  { intros x. rewrite list_elem_of_omap. split; [by intros ([y|] & ? & [= <-]) |].
    intros Hx. by exists (Some x). }
  unfold datetimelike. destruct (omap id col) as [|x0 xs] eqn:Hcol.
  - split; [| done]. intros _ x y Hx%Hin. by apply elem_of_nil in Hx.
  - rewrite forallb_forall. split.
    + intros Hall.
      assert (∀ x, Some x ∈ col → Ts.tz x = Ts.tz x0) as Hx0.
      { intros x [->|Hx]%Hin%elem_of_cons; [done |].
        apply list_elem_of_In, Hall in Hx. by apply bool_decide_eq_true in Hx. }
      intros x y Hx Hy. by rewrite (Hx0 x), (Hx0 y).
    + intros Hall x Hx%list_elem_of_In. apply bool_decide_eq_true.
      apply Hall; apply Hin; [by right | by left].
Qed.

(** Rows with a missing timestamp have no part in it. *)
Lemma datetimelike_filter (P : Raw.t → Prop) `{!∀ r, Decision (P r)} df :
  (∀ r, r ∈ df → ¬ P r → FlagAppend.to_datetime_coerce (Raw.timestamp r) = None) →
  datetimelike (FlagAppend.dt (filter P df)) = datetimelike (FlagAppend.dt df).
Proof.
  intros Hnat. apply eq_iff_eq_true. rewrite !datetimelike_spec.
  assert (∀ x, Some x ∈ FlagAppend.dt (filter P df) ↔ Some x ∈ FlagAppend.dt df) as Hin.
  { intros x. unfold FlagAppend.dt. rewrite !list_elem_of_fmap. split.
    - intros (r & Hx & [_ Hr]%list_elem_of_filter). by exists r.
    - intros (r & Hx & Hr). exists r. split; [done |].
      apply list_elem_of_filter. split; [| done].
      destruct (decide (P r)) as [|Hn]; [done |].
      rewrite (Hnat r Hr Hn) in Hx. done. }
  split; intros Hall x y Hx Hy; apply Hall; by apply Hin.
Qed.

(** Fewer rows keep a datetime column one. *)
Lemma datetimelike_filter_true (P : Raw.t → Prop) `{!∀ r, Decision (P r)} df :
  datetimelike (FlagAppend.dt df) = true →
  datetimelike (FlagAppend.dt (filter P df)) = true.
Proof.
  rewrite !datetimelike_spec. intros Hall x y Hx Hy.
  assert (∀ z, Some z ∈ FlagAppend.dt (filter P df) → Some z ∈ FlagAppend.dt df) as Hin.
  { intros z. unfold FlagAppend.dt. rewrite !list_elem_of_fmap.
    intros (r & Hz & [_ Hr]%list_elem_of_filter). by exists r. }
  apply Hall; by apply Hin.
Qed.

Lemma outcome_Returns df :
  FlagAppend.outcome df = Returns (FlagAppend.run df) ↔
  datetimelike (FlagAppend.dt df) = true.
Proof. unfold FlagAppend.outcome. by destruct (datetimelike _). Qed.

Lemma outcome_Returns_inv df out :
  FlagAppend.outcome df = Returns out →
  datetimelike (FlagAppend.dt df) = true ∧ out = FlagAppend.run df.
Proof.
  unfold FlagAppend.outcome. destruct (datetimelike _); [| done]. by intros [= <-].
Qed.


(** *** One row per record *)



Lemma slot_for_inj mac1 mac2 i :
  slot_for mac1 = Some i → slot_for mac2 = Some i → mac1 = mac2.
Proof.
  intros H1 H2.
  assert (∀ mac, slot_for mac = Some i →
            ∃ a, known_macs !! a = Some mac ∧ (slot_for <$> known_macs) !! a = Some (Some i))
    as Hpos.
  { intros mac H.
    assert (mac ∈ known_macs) as [a Ha]%list_elem_of_lookup_1
      by (apply slot_for_is_Some; by exists i).
    exists a. split; [done |]. by rewrite list_lookup_fmap, Ha, <-H. }
  destruct (Hpos _ H1) as (a & Ha & Ha'), (Hpos _ H2) as (b & Hb & Hb').
  assert (a = b) as ->; [| congruence].
  eapply NoDup_lookup; [| exact Ha' | exact Hb'].
  rewrite known_slots. apply (NoDup_fmap_2 _), NoDup_seq.
Qed.

(** C5. The registry holds exactly 25 MAC addresses; each has one slot;
    the slots of the 25 addresses are 1..25 in order (so a permutation of
    1..25, without collision); and looking up any other address yields
    "not found", never a failure. *)
Theorem beacon_registry_bijection :
  size setup_beacon_dictionary = 25%nat ∧
  length known_macs = 25%nat ∧
  NoDup known_macs ∧
  (∀ mac, mac ∈ known_macs ↔ is_Some (setup_beacon_dictionary !! mac)) ∧
  (∀ mac, mac ∈ known_macs ↔ ∃ i, slot_for mac = Some i ∧ (1 ≤ i ≤ 25)%nat) ∧
  slot_for <$> known_macs ≡ₚ Some <$> seq 1 25 ∧
  (∀ mac1 mac2 i, slot_for mac1 = Some i → slot_for mac2 = Some i → mac1 = mac2) ∧
  (∀ mac, mac ∉ known_macs ↔ slot_for mac = None).
Proof.
  split; [by vm_compute |]. split; [done |]. split; [apply NoDup_known_macs |].
  split; [intros mac; by rewrite beacon_lookup_known |].
  split.
  { intros mac. rewrite <-slot_for_is_Some. split.
    - intros [i Hi]. exists i. split; [done | by eapply slot_for_range].
    - intros (i & Hi & _). by exists i. }
  split; [by rewrite known_slots |].
  split; [apply slot_for_inj |].
  intros mac. by rewrite slot_for_None.
Qed.

Lemma row_leb_total {V} (r1 r2 : Frame.t V) :
  row_leb r1 r2 = true ∨ row_leb r2 r1 = true.
Proof. apply key_leb_total. Qed.

Lemma row_leb_trans {V} (r1 r2 r3 : Frame.t V) :
  row_leb r1 r2 = true → row_leb r2 r3 = true → row_leb r1 r3 = true.
Proof. apply key_leb_trans. Qed.

(** C6. The rows flag-append mode returns are in non-decreasing order of
    [(user_id, timestamp)] (a missing timestamp last within its user), and
    for every key the rows carrying it come in the order of their records
    in the input. *)
Theorem flag_append_sorted_stable (df : list Raw.t) :
  StronglySorted (λ r1 r2 : Frame.t Z, key_leb (Frame.key r1) (Frame.key r2) = true)
    (FlagAppend.run df) ∧
  Sorted (λ r1 r2 : Frame.t Z, key_leb (Frame.key r1) (Frame.key r2) = true)
    (FlagAppend.run df) ∧
  ∀ k, filter (λ row, Frame.key row = k) (FlagAppend.run df) =
       FlagAppend.flag_row <$> filter (λ r, Frame.key (FlagAppend.flag_row r) = k) df.
Proof.
  assert (StronglySorted
            (λ r1 r2 : Frame.t Z, key_leb (Frame.key r1) (Frame.key r2) = true)
            (FlagAppend.run df)) as Hs.
  { apply (mergesort_sorted row_leb); [apply row_leb_total | apply row_leb_trans]. }
  split; [done |]. split; [by apply StronglySorted_Sorted |].
  intros k. unfold FlagAppend.run, FlagAppend.convert_rssi_to_binary,
    FlagAppend.transform_and_flag_data.
  rewrite (mergesort_filter row_leb);
    [| apply row_leb_total | apply row_leb_trans
     | intros x y Hx Hy; unfold row_leb; rewrite Hx, Hy; apply key_leb_refl].
  generalize df. intros l. induction l as [|r l IH]; [done |].
  csimpl. rewrite !filter_cons. case_decide; csimpl; by rewrite IH.
Qed.

(** C10. Every row flag-append mode returns is [flag_row] of one input
    record, record for record, and [flag_row] copies the id, the MAC
    address, the signal strength and the power cell unchanged. *)
Theorem flag_append_keeps_fields (df : list Raw.t) :
  FlagAppend.run df ≡ₚ FlagAppend.flag_row <$> df ∧
  (∀ r : Raw.t,
     Frame.user_id (FlagAppend.flag_row r) = Raw.pid r ∧
     Frame.mac_address (FlagAppend.flag_row r) = Raw.mac_address r ∧
     Frame.RSSI (FlagAppend.flag_row r) = Raw.rssi r ∧
     Frame.power (FlagAppend.flag_row r) = Raw.column6 r) ∧
  (λ row : Frame.t Z, (Frame.user_id row, Frame.mac_address row,
                       Frame.RSSI row, Frame.power row)) <$> FlagAppend.run df
  ≡ₚ (λ r, (Raw.pid r, Raw.mac_address r, Raw.rssi r, Raw.column6 r)) <$> df.
Proof.
  split; [apply run_Permutation |]. split; [done |].
  rewrite run_Permutation, <-list_fmap_compose. done.
Qed.

(** ** Timestamps: the ISO 8601 texts *)

Local Arguments read_digits : simpl never.
Local Arguments read_fraction : simpl never.
Local Arguments expect : simpl never.
Local Arguments guard_b : simpl never.
Local Arguments digit_of : simpl never.
Local Arguments digit_char : simpl never.
Local Arguments parse_date : simpl never.
Local Arguments parse_clock : simpl never.
Local Arguments parse_fraction : simpl never.
Local Arguments parse_offset : simpl never.
Local Arguments parse_time : simpl never.
Local Arguments pad2 : simpl never.
Local Arguments pad4 : simpl never.

Lemma days_in_month_le y m : days_in_month y m ≤ 31.
Proof. unfold days_in_month. repeat case_match; lia. Qed.

Lemma digit_of_char d : 0 ≤ d ≤ 9 → digit_of (digit_char d) = Some d.
Proof.
  intros Hd.
  assert (d = 0 ∨ d = 1 ∨ d = 2 ∨ d = 3 ∨ d = 4 ∨ d = 5 ∨ d = 6 ∨ d = 7 ∨ d = 8 ∨ d = 9)
    as Hcases by lia.
  repeat (destruct Hcases as [->|Hcases]; [reflexivity |]). by subst.
Qed.

Lemma read_digits_digit k acc d s :
  0 ≤ d ≤ 9 →
  read_digits (S k) acc (String (digit_char d) s) = read_digits k (10 * acc + d) s.
Proof.
  intros Hd.
  change (read_digits (S k) acc (String (digit_char d) s))
    with (digit_of (digit_char d) ≫= λ d', read_digits k (10 * acc + d') s).
  by rewrite digit_of_char.
Qed.

Lemma pad2_app v rest :
  pad2 v +:+ rest
  = String (digit_char (v / 10 mod 10)) (String (digit_char (v mod 10)) rest).
Proof. reflexivity. Qed.

Lemma pad4_app v rest :
  pad4 v +:+ rest
  = String (digit_char (v / 1000 mod 10)) (String (digit_char (v / 100 mod 10))
      (String (digit_char (v / 10 mod 10)) (String (digit_char (v mod 10)) rest))).
Proof. reflexivity. Qed.

Lemma digit_mod v : 0 ≤ v mod 10 ≤ 9.
Proof. pose proof (Z.mod_pos_bound v 10). lia. Qed.

Lemma read_digits_pad2 v rest :
  0 ≤ v ≤ 99 → read_digits 2 0 (pad2 v +:+ rest) = Some (v, rest).
Proof.
  intros Hv. rewrite pad2_app.
  rewrite !read_digits_digit by apply digit_mod.
  change (read_digits 0 ?a ?s) with (Some (a, s)). do 2 f_equal.
  rewrite (Z.mod_small (v / 10)) by (split; [apply Z.div_pos; lia | apply Z.div_lt_upper_bound; lia]).
  pose proof (Z.div_mod v 10). lia.
Qed.

Lemma read_digits_pad4 v rest :
  0 ≤ v ≤ 9999 → read_digits 4 0 (pad4 v +:+ rest) = Some (v, rest).
Proof.
  intros Hv. rewrite pad4_app.
  rewrite !read_digits_digit by apply digit_mod.
  change (read_digits 0 ?a ?s) with (Some (a, s)). do 2 f_equal.
  assert (v / 100 = v / 10 / 10) as -> by (rewrite Z.div_div by lia; reflexivity).
  assert (v / 1000 = v / 10 / 10 / 10) as -> by (rewrite !Z.div_div by lia; reflexivity).
  pose proof (Z.div_mod v 10 ltac:(lia)).
  pose proof (Z.div_mod (v / 10) 10 ltac:(lia)).
  pose proof (Z.div_mod (v / 10 / 10) 10 ltac:(lia)).
  pose proof (Z.mod_pos_bound v 10 ltac:(lia)).
  pose proof (Z.mod_pos_bound (v / 10) 10 ltac:(lia)).
  pose proof (Z.mod_pos_bound (v / 10 / 10) 10 ltac:(lia)).
  rewrite (Z.mod_small (v / 10 / 10 / 10)) by lia.
  lia.
Qed.

Lemma string_app_assoc (s1 s2 s3 : string) : (s1 +:+ s2) +:+ s3 = s1 +:+ (s2 +:+ s3).
Proof.
  induction s1 as [|c s1 IH]; [done |].
  change (String c ((s1 +:+ s2) +:+ s3) = String c (s1 +:+ (s2 +:+ s3))).
  by rewrite IH.
Qed.

Lemma app_char c s : String c EmptyString +:+ s = String c s.
Proof. reflexivity. Qed.

Lemma expect_char c rest : expect c (String c rest) = Some rest.
Proof. unfold expect. by rewrite decide_True. Qed.

Lemma parse_date_write y m d rest :
  0 ≤ y ≤ 9999 → 1 ≤ m ≤ 12 → 1 ≤ d ≤ days_in_month y m →
  parse_date (write_date y m d +:+ rest) = Some (y, m, d, rest).
Proof.
  intros Hy Hm Hd. pose proof (days_in_month_le y m).
  unfold write_date, parse_date.
  rewrite !string_app_assoc, !app_char.
  rewrite read_digits_pad4 by done. cbn [mbind option_bind].
  rewrite expect_char. cbn [mbind option_bind].
  rewrite read_digits_pad2 by lia. cbn [mbind option_bind].
  rewrite expect_char. cbn [mbind option_bind].
  rewrite read_digits_pad2 by lia. cbn [mbind option_bind].
  replace ((1 <=? m) && (m <=? 12) && (1 <=? d) && (d <=? days_in_month y m)) with true; [done |].
  symmetry. rewrite !andb_true_iff, !Z.leb_le. lia.
Qed.

Lemma parse_clock_write h mi sec rest :
  0 ≤ h ≤ 23 → 0 ≤ mi ≤ 59 → 0 ≤ sec ≤ 59 →
  parse_clock (write_clock h mi sec +:+ rest) = Some (h, mi, sec, rest).
Proof.
  intros Hh Hm Hs. unfold write_clock, parse_clock.
  rewrite !string_app_assoc, !app_char.
  rewrite read_digits_pad2 by lia. cbn [mbind option_bind].
  rewrite expect_char. cbn [mbind option_bind].
  rewrite read_digits_pad2 by lia. cbn [mbind option_bind].
  rewrite expect_char. cbn [mbind option_bind].
  rewrite read_digits_pad2 by lia. cbn [mbind option_bind].
  replace ((h <=? 23) && (mi <=? 59) && (sec <=? 59)) with true; [done |].
  symmetry. rewrite !andb_true_iff, !Z.leb_le. lia.
Qed.

Lemma write_offset_ends_fraction off : ends_fraction (write_offset off).
Proof. destruct off as [| |[] h m]; by vm_compute. Qed.

Lemma read_fraction_write k acc ds rest :
  Forall (λ d, 0 ≤ d ≤ 9) ds → (length ds ≤ k)%nat → ends_fraction rest →
  read_fraction k acc (write_digits ds +:+ rest)
  = (digits_value acc ds * 10 ^ Z.of_nat (k - length ds), rest).
Proof.
  intros Hds. revert k acc. induction Hds as [|d ds Hd _ IH]; intros k acc Hk Hrest.
  - cbn [write_digits foldr length digits_value foldl]. rewrite Nat.sub_0_r.
    change ("" +:+ rest) with rest.
    destruct k as [|k]; [cbn; f_equal; lia |].
    destruct rest as [|c rest]; [done |].
    destruct Hrest as [Hc _].
    change (read_fraction (S k) acc (String c rest))
      with (match digit_of c with
            | Some d => read_fraction k (10 * acc + d) rest
            | None => (acc * 10 ^ Z.of_nat (S k), String c rest)
            end).
    by rewrite Hc.
  - cbn [length] in Hk. destruct k as [|k]; [lia |].
    cbn [write_digits foldr].
    change (String (digit_char d) ?s +:+ rest) with (String (digit_char d) (s +:+ rest)).
    change (read_fraction (S k) acc (String (digit_char d) ?s))
      with (match digit_of (digit_char d) with
            | Some d' => read_fraction k (10 * acc + d') s
            | None => (acc * 10 ^ Z.of_nat (S k), String (digit_char d) s)
            end).
    rewrite digit_of_char by done.
    rewrite IH by (done || lia). done.
Qed.

Lemma parse_fraction_write ds rest :
  Forall (λ d, 0 ≤ d ≤ 9) ds → (length ds ≤ 9)%nat → ends_fraction rest →
  parse_fraction (write_fraction ds +:+ rest) = Some (fraction_ns ds, rest).
Proof.
  intros Hds Hlen Hrest. destruct ds as [|d ds].
  - change (write_fraction [] +:+ rest) with rest.
    unfold parse_fraction. destruct rest as [|c rest]; [done |].
    destruct Hrest as [_ Hc].
    destruct c as [[] [] [] [] [] [] [] []]; try done.
  - apply Forall_cons in Hds as [Hd Hds]. cbn [length] in Hlen.
    unfold write_fraction. rewrite string_app_assoc, app_char.
    cbn [write_digits foldr].
    change (String (digit_char d) ?s +:+ rest) with (String (digit_char d) (s +:+ rest)).
    unfold parse_fraction.
    rewrite read_digits_digit by done.
    change (read_digits 0 ?a ?s) with (Some (a, s)). cbn [mbind option_bind].
    rewrite read_fraction_write by (done || lia). f_equal.
Qed.

Lemma parse_offset_write off :
  match off with
  | Signed _ h m => 0 ≤ h ≤ 23 ∧ 0 ≤ m ≤ 59
  | _ => True
  end →
  parse_offset (write_offset off) = Some (offset_minutes off).
Proof.
  destruct off as [| |east h m]; [done | done |]. intros [Hh Hm].
  assert (∀ sign sgn,
            (sign = "+"%char ∧ sgn = 1 ∨ sign = "-"%char ∧ sgn = -1) →
            parse_offset (String sign (pad2 h +:+ String ":" (pad2 m)))
            = Some (Some (sgn * (60 * h + m)))) as Hsign.
  { intros sign sgn Hs.
    assert (parse_offset (String sign (pad2 h +:+ String ":" (pad2 m)))
            = (sgn' ← (if decide (sign = "+"%char) then Some 1
                       else if decide (sign = "-"%char) then Some (-1) else None);
               '(h', s') ← read_digits 2 0 (pad2 h +:+ String ":" (pad2 m));
               s' ← expect ":" s';
               '(m', s') ← read_digits 2 0 s';
               guard_b ((h' <=? 23) && (m' <=? 59));;
               match s' with
               | EmptyString => Some (Some (sgn' * (60 * h' + m')))
               | _ => None
               end)) as ->.
    { destruct Hs as [[-> _]|[-> _]]; reflexivity. }
    replace (if decide (sign = "+"%char) then Some 1
             else if decide (sign = "-"%char) then Some (-1) else None)
      with (Some sgn) by (destruct Hs as [[-> ->]|[-> ->]]; reflexivity).
    cbn [mbind option_bind].
    rewrite read_digits_pad2 by lia. cbn [mbind option_bind].
    rewrite expect_char. cbn [mbind option_bind].
    change (read_digits 2 0 (pad2 m)) with (read_digits 2 0 (pad2 m +:+ "")).
    rewrite read_digits_pad2 by lia. cbn [mbind option_bind].
    replace ((h <=? 23) && (m <=? 59)) with true; [done |].
    symmetry. rewrite !andb_true_iff, !Z.leb_le. lia. }
  unfold write_offset, offset_minutes. rewrite app_char.
  destruct east.
  - rewrite app_char. apply Hsign. by left.
  - rewrite app_char. apply Hsign. by right.
Qed.

Lemma digits_value_bound acc ds :
  Forall (λ d, 0 ≤ d ≤ 9) ds → 0 ≤ acc →
  0 ≤ digits_value acc ds < (acc + 1) * 10 ^ Z.of_nat (length ds).
Proof.
  intros Hds. revert acc. induction Hds as [|d ds Hd _ IH]; intros acc Hacc.
  - cbn. lia.
  - cbn [digits_value foldl length]. fold (digits_value (10 * acc + d) ds).
    specialize (IH (10 * acc + d) ltac:(lia)).
    rewrite Nat2Z.inj_succ, Z.pow_succ_r by lia.
    assert (0 < 10 ^ Z.of_nat (length ds)) by (apply Z.pow_pos_nonneg; lia).
    nia.
Qed.

Lemma fraction_ns_bound ds :
  Forall (λ d, 0 ≤ d ≤ 9) ds → (length ds ≤ 9)%nat →
  0 ≤ fraction_ns ds < 1000000000.
Proof.
  intros Hds Hlen. unfold fraction_ns.
  pose proof (digits_value_bound 0 ds Hds ltac:(lia)) as Hb.
  assert (0 < 10 ^ Z.of_nat (9 - length ds)) as Hp by (apply Z.pow_pos_nonneg; lia).
  assert (10 ^ Z.of_nat (length ds) * 10 ^ Z.of_nat (9 - length ds) = 1000000000) as Hprod.
  { rewrite <-Z.pow_add_r by lia. replace (Z.of_nat (length ds) + Z.of_nat (9 - length ds)) with 9 by lia.
    reflexivity. }
  nia.
Qed.

Lemma parse_time_write sep h mi sec ds off :
  (sep = "T"%char ∨ sep = " "%char) →
  0 ≤ h ≤ 23 → 0 ≤ mi ≤ 59 → 0 ≤ sec ≤ 59 →
  Forall (λ d, 0 ≤ d ≤ 9) ds → (length ds ≤ 9)%nat →
  match off with
  | Signed _ oh om => 0 ≤ oh ≤ 23 ∧ 0 ≤ om ≤ 59
  | _ => True
  end →
  parse_time (String sep (write_clock h mi sec +:+ write_fraction ds +:+ write_offset off))
  = Some (h, mi, sec, fraction_ns ds, offset_minutes off).
Proof.
  intros Hsep Hh Hm Hs Hds Hlen Hoff. unfold parse_time.
  rewrite bool_decide_true by done. cbn [guard_b mbind option_bind].
  rewrite parse_clock_write by done. cbn [mbind option_bind].
  rewrite parse_fraction_write by (done || apply write_offset_ends_fraction).
  cbn [mbind option_bind].
  rewrite parse_offset_write by done. done.
Qed.

Lemma parse_iso8601_write y m d sep h mi sec ds off :
  iso8601_parts y m d sep h mi sec ds off →
  parse_iso8601 (write_iso8601 y m d sep h mi sec ds off)
  = Some (Ts.mk y m d h mi sec (fraction_ns ds) (offset_minutes off)).
Proof.
  intros (Hy & Hm & Hd & Hsep & Hh & Hmi & Hs & Hds & Hlen & Hoff).
  unfold parse_iso8601, write_iso8601.
  rewrite parse_date_write by (done || lia). cbn [mbind option_bind].
  rewrite parse_time_write by done. cbn [mbind option_bind].
  pose proof (fraction_ns_bound ds Hds Hlen) as Hns.
  replace (Ts.valid _ && _ && _) with true; [done |].
  symmetry. unfold Ts.valid.
  cbn [Ts.year Ts.month Ts.day Ts.hour Ts.minute Ts.second Ts.nanosecond Ts.tz].
  rewrite !andb_true_iff, !Z.leb_le, Z.ltb_lt.
  repeat (split; [lia || idtac |]); try lia.
  destruct off as [| |[] oh om]; cbn [offset_minutes]; [done | done | |];
    rewrite andb_true_iff, !Z.ltb_lt; lia.
Qed.

Lemma parse_iso8601_date y m d :
  1678 ≤ y ≤ 2261 → 1 ≤ m ≤ 12 → 1 ≤ d ≤ days_in_month y m →
  parse_iso8601 (write_date y m d) = Some (Ts.mk y m d 0 0 0 0 None).
Proof.
  intros Hy Hm Hd. unfold parse_iso8601.
  change (parse_date (write_date y m d)) with (parse_date (write_date y m d +:+ "")).
  rewrite parse_date_write by (done || lia). cbn [mbind option_bind].
  change (parse_time "") with (Some (0, 0, 0, 0, @None Z)). cbn [mbind option_bind].
  replace (Ts.valid _ && _ && _) with true; [done |].
  symmetry. unfold Ts.valid.
  cbn [Ts.year Ts.month Ts.day Ts.hour Ts.minute Ts.second Ts.nanosecond Ts.tz].
  rewrite !andb_true_iff, !Z.leb_le, Z.ltb_lt. lia.
Qed.

(** *** Any text the parser reads *)

Lemma to_datetime_Some raw x :
  to_datetime raw = Some x ↔ parse_datetime_string raw = Returns (Some x).
Proof.
  unfold to_datetime. destruct (parse_datetime_string raw) as [[y|]|e]; naive_solver.
Qed.

Lemma to_datetime_valid raw x : to_datetime raw = Some x → Ts.valid x = true.
Proof. intros Hx%to_datetime_Some. by eapply parse_datetime_string_valid. Qed.

Lemma valid_hour x : Ts.valid x = true → 0 ≤ Ts.hour x ≤ 23.
Proof. unfold Ts.valid. rewrite !andb_true_iff, !Z.leb_le. lia. Qed.

Lemma tz_localize_None_fields x : Ts.fields (tz_localize_None x) = Ts.fields x.
Proof. reflexivity. Qed.

Lemma strftime_ymd_tz_localize x : strftime_ymd (tz_localize_None x) = strftime_ymd x.
Proof. reflexivity. Qed.

(** What the two scripts keep of a text the parser reads as [x]. *)
Lemma normalized_cells (r : Raw.t) raw x :
  Raw.timestamp r = Some raw → parse_datetime_string raw = Returns (Some x) →
  Frame.timestamp (FlagAppend.flag_row r) = Some (tz_localize_None x) ∧
  Frame.year_month_day (FlagAppend.flag_row r) = Some (strftime_ymd x) ∧
  Frame.hour (FlagAppend.flag_row r) = Some (Ts.hour x) ∧
  ∃ p, Pivot.prepare_row r = Returns p ∧
       Pivot.timestamp p = Some (tz_localize_None x) ∧
       Pivot.year_month_day p = Some (strftime_ymd x) ∧
       Pivot.hour p = Some (Ts.hour x).
Proof.
  intros Hr Hx.
  unfold FlagAppend.flag_row, FlagAppend.to_datetime_coerce.
  cbn [Frame.timestamp Frame.year_month_day Frame.hour].
  rewrite Hr. cbn [mbind option_bind].
  rewrite (proj2 (to_datetime_Some raw x) Hx).
  repeat (split; [done |]).
  unfold Pivot.prepare_row, Pivot.to_datetime_raise. rewrite Hr, Hx.
  eexists. split; [reflexivity |]. done.
Qed.

(** C7. A timestamp text that the parser reads is kept, in the tables of
    both scripts, as the instant read with its timezone removed and its
    wall-clock fields unchanged (no shift to UTC), together with the
    date text of these fields (ten characters) and their hour, which lies
    in 0..23.  For a parser that reads the ISO 8601 texts as ISO 8601 has
    them, the fields kept are the digits of the text: of
    [YYYY-MM-DD<sep>HH:MM:SS.f<offset>] the year, month, day, hour,
    minute and second written, the up to nine fraction digits as
    nanoseconds, whatever the offset; the date is the first ten
    characters of the text and the hour its two hour digits; a text
    [YYYY-MM-DD] alone is kept as midnight of that day.  The text
    ["2024-01-01T10:00:00.123456Z"] gives 10:00:00.123456 without
    timezone, hour 10 and date ["2024-01-01"]. *)
Theorem timestamp_normalization :
  (∀ raw x, parse_iso8601 raw = Some x → parse_datetime_string raw = Returns (Some x)) →
  (∀ (r : Raw.t) raw x,
     Raw.timestamp r = Some raw → parse_datetime_string raw = Returns (Some x) →
     Ts.tz (tz_localize_None x) = None ∧
     Ts.fields (tz_localize_None x) = Ts.fields x ∧
     0 ≤ Ts.hour x ≤ 23 ∧
     String.length (strftime_ymd x) = 10%nat ∧
     Frame.timestamp (FlagAppend.flag_row r) = Some (tz_localize_None x) ∧
     Frame.year_month_day (FlagAppend.flag_row r) = Some (strftime_ymd x) ∧
     Frame.hour (FlagAppend.flag_row r) = Some (Ts.hour x) ∧
     ∃ p, Pivot.prepare_row r = Returns p ∧
          Pivot.timestamp p = Some (tz_localize_None x) ∧
          Pivot.year_month_day p = Some (strftime_ymd x) ∧
          Pivot.hour p = Some (Ts.hour x)) ∧
  (∀ (r : Raw.t) y m d sep h mi sec ds off,
     iso8601_parts y m d sep h mi sec ds off →
     Raw.timestamp r = Some (write_iso8601 y m d sep h mi sec ds off) →
     Frame.timestamp (FlagAppend.flag_row r)
       = Some (Ts.mk y m d h mi sec (fraction_ns ds) None) ∧
     Frame.year_month_day (FlagAppend.flag_row r) = Some (write_date y m d) ∧
     Frame.hour (FlagAppend.flag_row r) = Some h ∧
     ∃ p, Pivot.prepare_row r = Returns p ∧
          Pivot.timestamp p = Some (Ts.mk y m d h mi sec (fraction_ns ds) None) ∧
          Pivot.year_month_day p = Some (write_date y m d) ∧
          Pivot.hour p = Some h) ∧
  (∀ (r : Raw.t) y m d,
     1678 ≤ y ≤ 2261 → 1 ≤ m ≤ 12 → 1 ≤ d ≤ days_in_month y m →
     Raw.timestamp r = Some (write_date y m d) →
     Frame.timestamp (FlagAppend.flag_row r) = Some (Ts.mk y m d 0 0 0 0 None) ∧
     Frame.year_month_day (FlagAppend.flag_row r) = Some (write_date y m d) ∧
     Frame.hour (FlagAppend.flag_row r) = Some 0) ∧
  (∀ r : Raw.t,
     Raw.timestamp r = Some "2024-01-01T10:00:00.123456Z" →
     Frame.timestamp (FlagAppend.flag_row r)
       = Some (Ts.mk 2024 1 1 10 0 0 123456000 None) ∧
     Frame.year_month_day (FlagAppend.flag_row r) = Some "2024-01-01" ∧
     Frame.hour (FlagAppend.flag_row r) = Some 10 ∧
     ∃ p, Pivot.prepare_row r = Returns p ∧
          Pivot.timestamp p = Some (Ts.mk 2024 1 1 10 0 0 123456000 None) ∧
          Pivot.year_month_day p = Some "2024-01-01" ∧
          Pivot.hour p = Some 10).
Proof.
  intros Hiso.
  assert (∀ (r : Raw.t) y m d sep h mi sec ds off,
            iso8601_parts y m d sep h mi sec ds off →
            Raw.timestamp r = Some (write_iso8601 y m d sep h mi sec ds off) →
            Frame.timestamp (FlagAppend.flag_row r)
              = Some (Ts.mk y m d h mi sec (fraction_ns ds) None) ∧
            Frame.year_month_day (FlagAppend.flag_row r) = Some (write_date y m d) ∧
            Frame.hour (FlagAppend.flag_row r) = Some h ∧
            ∃ p, Pivot.prepare_row r = Returns p ∧
                 Pivot.timestamp p = Some (Ts.mk y m d h mi sec (fraction_ns ds) None) ∧
                 Pivot.year_month_day p = Some (write_date y m d) ∧
                 Pivot.hour p = Some h) as Hparts.
  { intros r y m d sep h mi sec ds off Hp Hr.
    apply (normalized_cells r _ (Ts.mk y m d h mi sec (fraction_ns ds) (offset_minutes off)) Hr).
    by apply Hiso, parse_iso8601_write. }
  split; [| split; [exact Hparts |]; split].
  - intros r raw x Hr Hx. split; [done |]. split; [done |].
    split; [exact (valid_hour x (parse_datetime_string_valid raw x Hx)) |].
    split; [reflexivity |]. by apply (normalized_cells r raw x).
  - intros r y m d Hy Hm Hd Hr.
    destruct (normalized_cells r _ (Ts.mk y m d 0 0 0 0 None) Hr) as (Ht & Hymd & Hh & _);
      [by apply Hiso, parse_iso8601_date |].
    done.
  - intros r Hr.
    apply (Hparts r 2024 1 1 "T"%char 10 0 0 [1; 2; 3; 4; 5; 6] Zulu); [| exact Hr].
    unfold iso8601_parts. change (days_in_month 2024 1) with 31.
    split; [lia |]. split; [lia |]. split; [lia |]. split; [by left |].
    split; [lia |]. split; [lia |]. split; [lia |].
    split; [repeat constructor; lia |]. split; [cbn [length]; lia | done].
Qed.

(** ** The pivot script: preparation *)

Lemma filter_fmap_list {A B} (f : A → B) (P : B → Prop) `{!∀ y, Decision (P y)}
    (l : list A) :
  filter P (f <$> l) = f <$> filter (λ x, P (f x)) l.
Proof.
  induction l as [|x l IH]; [done |].
  csimpl. rewrite !filter_cons. case_decide; csimpl; by rewrite IH.
Qed.

Lemma unparseable_dec r : {Pivot.unparseable r} + {¬ Pivot.unparseable r}.
Proof.
  unfold Pivot.unparseable.
  destruct (Raw.timestamp r) as [raw|]; [| right; by intros (? & ? & ? & _)].
  destruct (parse_datetime_string raw) as [x|e] eqn:Hx.
  - right. intros (? & ? & [= <-] & ?). congruence.
  - left. by exists raw, e.
Defined.

Lemma to_datetime_raise_parsed r :
  ¬ Pivot.unparseable r →
  Pivot.to_datetime_raise (Raw.timestamp r)
  = Returns (FlagAppend.to_datetime_coerce (Raw.timestamp r)).
Proof.
  intros Hn. unfold Pivot.to_datetime_raise, FlagAppend.to_datetime_coerce,
    Pivot.unparseable, to_datetime in *.
  destruct (Raw.timestamp r) as [raw|]; [| done]. cbn [mbind option_bind].
  destruct (parse_datetime_string raw) as [x|e] eqn:Hx; [done |].
  destruct Hn. by exists raw, e.
Qed.

Lemma to_datetime_raise_unparseable r :
  Pivot.unparseable r → ∃ e, Pivot.to_datetime_raise (Raw.timestamp r) = Raises e.
Proof.
  intros (raw & e & Hr & Hx). unfold Pivot.to_datetime_raise.
  rewrite Hr, Hx. by eexists.
Qed.

Lemma prepare_row_parsed r :
  ¬ Pivot.unparseable r → Pivot.prepare_row r = Returns (Pivot.prepared_of r).
Proof.
  intros Hn. unfold Pivot.prepare_row. by rewrite to_datetime_raise_parsed.
Qed.

Lemma prepare_row_unparseable r :
  Pivot.unparseable r → ∃ e, Pivot.prepare_row r = Raises e.
Proof.
  intros [e He]%to_datetime_raise_unparseable. unfold Pivot.prepare_row.
  rewrite He. by eexists.
Qed.

Lemma mapM_exc_cons {A B} (f : A → exc B) x l :
  mapM f (x :: l) = y ← f x; k ← mapM f l; mret (y :: k).
Proof. reflexivity. Qed.

(** A loop over the rows returns when no row raises, and raises as its
    first raising row does. *)
Lemma mapM_exc_Returns {A B} (f : A → exc B) (g : A → B) (l : list A) :
  Forall (λ x, f x = Returns (g x)) l → mapM f l = Returns (g <$> l).
Proof.
  induction 1 as [|x l Hx _ IH]; [done |].
  by rewrite mapM_exc_cons, Hx, IH.
Qed.

Lemma mapM_exc_Raises {A B} (f : A → exc B) (l : list A) :
  Forall (λ x, (∃ y, f x = Returns y) ∨ (∃ e, f x = Raises e)) l →
  Exists (λ x, ∃ e, f x = Raises e) l → ∃ e, mapM f l = Raises e.
Proof.
  induction 1 as [|x l Hx _ IH]; intros Hex.
  { by apply Exists_nil in Hex. }
  rewrite mapM_exc_cons. destruct Hx as [[y Hy]|[e ->]]; [| by exists e].
  apply Exists_cons in Hex as [[e He]|Hex]; [congruence |].
  rewrite Hy. destruct (IH Hex) as [e ->]. by exists e.
Qed.

Lemma exc_cases {A} (m : exc A) : (∃ y, m = Returns y) ∨ (∃ e, m = Raises e).
Proof. destruct m; eauto. Qed.

Lemma dt_column_parsed df :
  Forall (λ r, ¬ Pivot.unparseable r) df →
  mapM (λ r, Pivot.to_datetime_raise (Raw.timestamp r)) df = Returns (FlagAppend.dt df).
Proof.
  intros Hall. apply (mapM_exc_Returns _ (λ r, FlagAppend.to_datetime_coerce (Raw.timestamp r))).
  eapply Forall_impl; [exact Hall |]. intros r. apply to_datetime_raise_parsed.
Qed.

Lemma dt_column_unparseable df :
  Exists Pivot.unparseable df →
  ∃ e, mapM (λ r, Pivot.to_datetime_raise (Raw.timestamp r)) df = Raises e.
Proof.
  intros Hex. apply mapM_exc_Raises.
  - apply Forall_forall. intros r _. apply exc_cases.
  - eapply Exists_impl; [exact Hex |]. intros r. apply to_datetime_raise_unparseable.
Qed.

Lemma prepare_rows_parsed df :
  Forall (λ r, ¬ Pivot.unparseable r) df →
  mapM Pivot.prepare_row df = Returns (Pivot.prepared_of <$> df).
Proof.
  intros Hall. apply mapM_exc_Returns.
  eapply Forall_impl; [exact Hall |]. intros r. apply prepare_row_parsed.
Qed.

Lemma prepare_parsed df :
  Forall (λ r, ¬ Pivot.unparseable r) df →
  datetimelike (FlagAppend.dt df) = true →
  Pivot.prepare df = Returns (Pivot.prepared_of <$> df).
Proof.
  intros Hall Hdt. unfold Pivot.prepare.
  rewrite dt_column_parsed by done. cbn [mbind exc_bind].
  rewrite Hdt. by apply prepare_rows_parsed.
Qed.

Lemma prepare_unparseable df :
  Exists Pivot.unparseable df → ∃ e, Pivot.prepare df = Raises e.
Proof.
  intros [e He]%dt_column_unparseable. unfold Pivot.prepare.
  rewrite He. by exists e.
Qed.

Lemma prepare_not_datetimelike df :
  datetimelike (FlagAppend.dt df) = false → ∃ e, Pivot.prepare df = Raises e.
Proof.
  intros Hdt.
  destruct (Forall_Exists_dec (λ r, ¬ Pivot.unparseable r) Pivot.unparseable
              (λ r, match unparseable_dec r with
                    | left H => right H
                    | right H => left H
                    end) df) as [Hno|Hex]; [| by apply prepare_unparseable].
  unfold Pivot.prepare. rewrite dt_column_parsed by done. cbn [mbind exc_bind].
  rewrite Hdt. by eexists.
Qed.

Lemma prepare_Returns df pdf :
  Pivot.prepare df = Returns pdf →
  Forall (λ r, ¬ Pivot.unparseable r) df ∧
  datetimelike (FlagAppend.dt df) = true ∧
  pdf = Pivot.prepared_of <$> df.
Proof.
  intros Hp.
  assert (Forall (λ r, ¬ Pivot.unparseable r) df) as Hall.
  { apply Forall_forall. intros r Hin Hr.
    destruct (prepare_unparseable df) as [e He]; [| congruence].
    apply Exists_exists. by exists r. }
  assert (datetimelike (FlagAppend.dt df) = true) as Hdt.
  { destruct (datetimelike (FlagAppend.dt df)) eqn:Hdt; [done |].
    destruct (prepare_not_datetimelike df Hdt) as [e He]. congruence. }
  split; [done |]. split; [done |]. rewrite (prepare_parsed df Hall Hdt) in Hp. congruence.
Qed.

Lemma transform_and_pivot_data_Returns df out :
  Pivot.transform_and_pivot_data df = Returns out ↔
  Forall (λ r, ¬ Pivot.unparseable r) df ∧
  datetimelike (FlagAppend.dt df) = true ∧
  out = Pivot.merge_left (Pivot.pivot_table (Pivot.prepared_of <$> df))
                         (Pivot.first_values (Pivot.prepared_of <$> df)).
Proof.
  unfold Pivot.transform_and_pivot_data. split.
  - destruct (Pivot.prepare df) as [pdf|e] eqn:Hp; [| done].
    apply prepare_Returns in Hp as (Hall & Hdt & ->). intros [= <-]. done.
  - intros (Hall & Hdt & ->). by rewrite (prepare_parsed df Hall Hdt).
Qed.

Lemma index_of_prepared r u t d h :
  Pivot.index_of (Pivot.prepared_of r) = Some (u, t, d, h) ↔
  record_key r = (u, Some t) ∧ d = strftime_ymd t ∧ h = Ts.hour t.
Proof.
  unfold Pivot.index_of, Pivot.prepared_of, record_key.
  cbn [Pivot.timestamp Pivot.year_month_day Pivot.hour Pivot.user_id].
  destruct (Raw.timestamp r ≫= to_datetime) as [x|]; cbn [fmap option_fmap option_map mbind option_bind].
  - split.
    + intros [= <- <- <- <-]. done.
    + intros ([= <- <-] & -> & ->). done.
  - split; [done | by intros ([= ] & _)].
Qed.

Lemma group_of_prepared r g :
  Pivot.group_of (Pivot.prepared_of r) = Some g ↔ record_key r = (g.1, Some g.2).
Proof.
  unfold Pivot.group_of, Pivot.prepared_of, record_key.
  cbn [Pivot.timestamp Pivot.user_id]. destruct g as [u t].
  destruct (Raw.timestamp r ≫= to_datetime) as [x|]; cbn [fmap option_fmap option_map mbind option_bind].
  - split; [by intros [= <- <-] | by intros [= <- <-]].
  - split; [done | by intros [= ]].
Qed.

(** The column chosen for a record is a column of [rssi_cols], the one
    of its slot. *)
Lemma rssi_column_slot (mac : option string) col :
  mac ≫= (setup_beacon_dictionary !!.) = Some col ↔
  ∃ j, rssi_cols !! j = Some col ∧ mac_slot mac = Some (S j).
Proof.
  split.
  - intros H. assert (col ∈ rssi_cols) as [j Hj]%list_elem_of_lookup_1.
    { destruct mac as [m|]; [| done]. cbn in H.
      rewrite <-beacon_columns. apply beacon_lookup in H.
      apply list_elem_of_fmap. by exists (m, col). }
    exists j. split; [done |]. by apply (target_column_slot mac j col).
  - intros (j & Hj & Hs). by apply (target_column_slot mac j col).
Qed.

(** ** The pivot script: the shape of the result *)

Lemma pivot_index_elem_of df u t d h :
  (u, t, d, h) ∈ Pivot.pivot_index (Pivot.prepared_of <$> df) ↔
  d = strftime_ymd t ∧ h = Ts.hour t ∧ ∃ i, has_reading df (u, Some t) i.
Proof.
  unfold Pivot.pivot_index.
  rewrite mergesort_elem_of, elem_of_remove_dups, list_elem_of_omap.
  split.
  - intros (p & [r [-> Hr]]%list_elem_of_fmap & Hc).
    unfold Pivot.cell_index in Hc.
    destruct (Pivot.rssi_column (Pivot.prepared_of r)) as [col|] eqn:Hcol; [| done].
    destruct (Pivot.RSSI (Pivot.prepared_of r)) as [v|] eqn:Hv; [| done].
    apply index_of_prepared in Hc as (Hk & -> & ->).
    split; [done |]. split; [done |].
    apply rssi_column_slot in Hcol as (j & _ & Hs).
    exists (S j), r. split; [by apply list_elem_of_filter |].
    split; [done |]. by exists v.
  - intros (-> & -> & i & r & [Hk Hr]%list_elem_of_filter & Hs & [v Hv]).
    exists (Pivot.prepared_of r). split; [by apply list_elem_of_fmap_2 |].
    unfold Pivot.cell_index.
    assert (1 ≤ i)%nat as Hi by (apply mac_slot_range in Hs; lia).
    destruct (lookup_lt_is_Some_2 rssi_cols (pred i)) as [col Hcol];
      [apply mac_slot_range in Hs; change (length rssi_cols) with 25%nat; lia |].
    assert (Pivot.rssi_column (Pivot.prepared_of r) = Some col) as ->.
    { apply rssi_column_slot. exists (pred i). split; [done |].
      by replace (S (pred i)) with i by lia. }
    change (Pivot.RSSI (Pivot.prepared_of r)) with (Raw.rssi r). rewrite Hv.
    by apply index_of_prepared.
Qed.

Lemma pivot_index_NoDup df : NoDup (Pivot.pivot_index df).
Proof. apply mergesort_NoDup, NoDup_remove_dups. Qed.

Lemma output_groups_elem_of df g :
  g ∈ Pivot.output_groups (Pivot.prepared_of <$> df) ↔
  ∃ i, has_reading df (g.1, Some g.2) i.
Proof.
  unfold Pivot.output_groups. rewrite list_elem_of_fmap. destruct g as [u t]. split.
  - intros ([[[u' t'] d] h] & [= -> ->] & Hk). by apply pivot_index_elem_of in Hk as (_ & _ & ?).
  - intros Hi. exists (u, t, strftime_ymd t, Ts.hour t). split; [done |].
    by apply pivot_index_elem_of.
Qed.

Lemma output_groups_NoDup df :
  NoDup (Pivot.output_groups (Pivot.prepared_of <$> df)).
Proof.
  unfold Pivot.output_groups. apply NoDup_fmap_2_strong; [| apply pivot_index_NoDup].
  intros [[[u t] d] h] [[[u' t'] d'] h'] H1 H2 [= <- <-].
  apply pivot_index_elem_of in H1 as (-> & -> & _).
  apply pivot_index_elem_of in H2 as (-> & -> & _). done.
Qed.

Lemma filter_key_unique {K V} `{!EqDecision K} (F : K → V) (l : list K) (g : K) :
  NoDup l → g ∈ l →
  filter (λ fv : K * V, fv.1 = g) ((λ x, (x, F x)) <$> l) = [(g, F g)].
Proof.
  induction l as [|x l IH]; intros Hnd Hin; [by apply elem_of_nil in Hin |].
  apply list.NoDup_cons in Hnd as [Hx Hnd]. csimpl. rewrite filter_cons. simpl.
  destruct (decide (x = g)) as [->|Hne].
  - f_equal. clear IH Hnd Hin. induction l as [|y l IH]; [done |].
    apply not_elem_of_cons in Hx as [Hy Hx]. csimpl.
    rewrite filter_cons_False by (simpl; congruence). by apply IH.
  - apply elem_of_cons in Hin as [?|Hin]; [congruence |]. by apply IH.
Qed.

Lemma first_values_lookup df g :
  (∃ r, r ∈ df ∧ record_key r = (g.1, Some g.2)) →
  filter (λ fv, fv.1 = g) (Pivot.first_values (Pivot.prepared_of <$> df)) =
  [(g, (first_valid (Raw.mac_address <$> group_records df (g.1, Some g.2)),
        first_valid (Raw.column6 <$> group_records df (g.1, Some g.2))))].
Proof.
  intros (r & Hr & Hk). unfold Pivot.first_values.
  assert (filter (λ p, Pivot.group_of p = Some g) (Pivot.prepared_of <$> df)
          = Pivot.prepared_of <$> group_records df (g.1, Some g.2)) as Hrows.
  { rewrite filter_fmap_list. f_equal. apply list_filter_iff.
    intros r'. apply group_of_prepared. }
  rewrite (filter_key_unique _ _ g).
  - cbv beta zeta. rewrite Hrows. by rewrite <-!list_fmap_compose.
  - apply mergesort_NoDup, NoDup_remove_dups.
  - rewrite mergesort_elem_of, elem_of_remove_dups, list_elem_of_omap.
    exists (Pivot.prepared_of r). split; [by apply list_elem_of_fmap_2 |].
    by apply group_of_prepared.
Qed.

Lemma rssi_cols_lookup i :
  (1 ≤ i ≤ 25)%nat → rssi_cols !! pred i = Some ("RSSI_" +:+ str_of_slot i).
Proof.
  intros Hi. unfold rssi_cols. rewrite list_lookup_fmap.
  rewrite lookup_seq_lt by lia. simpl. do 3 f_equal. lia.
Qed.

Lemma group_readings_raw df u t i :
  (1 ≤ i ≤ 25)%nat →
  Pivot.group_readings (Pivot.prepared_of <$> df)
    (u, t, strftime_ymd t, Ts.hour t) ("RSSI_" +:+ str_of_slot i)
  = slot_readings df (u, Some t) i.
Proof.
  intros Hi. unfold Pivot.group_readings, slot_readings, group_records.
  rewrite filter_fmap_list, <-list_fmap_compose, list_filter_filter.
  f_equal. apply list_filter_iff. intros r.
  rewrite index_of_prepared.
  change (Pivot.rssi_column (Pivot.prepared_of r))
    with (Raw.mac_address r ≫= (setup_beacon_dictionary !!.)).
  pose proof (target_column_slot (Raw.mac_address r) _ _ (rssi_cols_lookup i Hi)) as Hiff.
  replace (S (pred i)) with i in Hiff by lia. rewrite Hiff. tauto.
Qed.

Lemma pivot_cells_raw df u t :
  (λ col, mean (Pivot.group_readings (Pivot.prepared_of <$> df)
                  (u, t, strftime_ymd t, Ts.hour t) col)) <$> rssi_cols
  = slot_average df (u, Some t) <$> seq 1 25.
Proof.
  unfold rssi_cols. rewrite <-list_fmap_compose.
  apply list_fmap_ext. intros j i Hj. unfold compose, slot_average.
  apply lookup_seq in Hj as [-> Hj]. rewrite group_readings_raw by lia. done.
Qed.

Lemma merge_left_cons k cells left right :
  Pivot.merge_left ((k, cells) :: left) right =
  match filter (λ fv, fv.1 = (k.1.1.1, k.1.1.2)) right with
  | [] => [Pivot.result_row k cells (None, None)]
  | matches => (λ fv, Pivot.result_row k cells fv.2) <$> matches
  end ++ Pivot.merge_left left right.
Proof. reflexivity. Qed.

Lemma merge_left_rows df idx :
  (∀ k, k ∈ idx → k ∈ Pivot.pivot_index (Pivot.prepared_of <$> df)) →
  Pivot.merge_left
    ((λ k, (k, (λ col, mean (Pivot.group_readings (Pivot.prepared_of <$> df) k col))
                 <$> rssi_cols)) <$> idx)
    (Pivot.first_values (Pivot.prepared_of <$> df))
  = group_row df <$> ((λ k : Z * Ts.t * string * Z, (k.1.1.1, k.1.1.2)) <$> idx).
Proof.
  induction idx as [|k idx IH]; intros Hsub; [done |].
  rewrite !fmap_cons, merge_left_cons.
  rewrite IH by (intros k' Hk'; apply Hsub; by right). clear IH.
  destruct k as [[[u t] d] h].
  destruct (proj1 (pivot_index_elem_of _ _ _ _ _) (Hsub _ ltac:(by left)))
    as (-> & -> & i & r & [Hk Hr]%list_elem_of_filter & _).
  cbn [fst snd].
  rewrite (first_values_lookup df (u, t)) by (by exists r).
  rewrite pivot_cells_raw. reflexivity.
Qed.

(** The table the pivot script returns: one row per group that has a
    reading for some slot, built by [group_row]. *)
Lemma pivot_result df out :
  Pivot.transform_and_pivot_data df = Returns out ↔
  Forall (λ r, ¬ Pivot.unparseable r) df ∧
  datetimelike (FlagAppend.dt df) = true ∧
  out = group_row df <$> Pivot.output_groups (Pivot.prepared_of <$> df).
Proof.
  rewrite transform_and_pivot_data_Returns.
  unfold Pivot.pivot_table, Pivot.output_groups.
  by rewrite merge_left_rows.
Qed.

Lemma run_result df out :
  Pivot.run df = Returns out ↔
  Forall (λ r, ¬ Pivot.unparseable r) df ∧
  datetimelike (FlagAppend.dt df) = true ∧
  out = Pivot.binary_row <$>
          (group_row df <$> Pivot.output_groups (Pivot.prepared_of <$> df)).
Proof.
  unfold Pivot.run, Pivot.convert_rssi_to_binary. split.
  - destruct (Pivot.transform_and_pivot_data df) as [t|e] eqn:Ht; [| done].
    apply pivot_result in Ht as (Hall & Hdt & ->). by intros [= <-].
  - intros (Hall & Hdt & ->).
    by rewrite (proj2 (pivot_result df _) (conj Hall (conj Hdt eq_refl))).
Qed.

Lemma run_row df out row :
  Pivot.run df = Returns out →
  row ∈ out ↔
  ∃ g : Z * Ts.t, (∃ i, has_reading df (g.1, Some g.2) i) ∧
                  row = Pivot.binary_row (group_row df g).
Proof.
  intros (_ & _ & ->)%run_result. rewrite <-list_fmap_compose, list_elem_of_fmap.
  split.
  - intros (g & -> & Hg). exists g. by rewrite <-output_groups_elem_of.
  - intros (g & Hg & ->). exists g. by rewrite output_groups_elem_of.
Qed.

Lemma binary_row_key df g :
  Frame.key (Pivot.binary_row (group_row df g)) = (g.1, Some g.2).
Proof. reflexivity. Qed.

Lemma mean_arith_mean l : mean l = arith_mean (omap id l).
Proof. unfold mean, arith_mean. by destruct (omap id l). Qed.

Lemma mean_is_Some l : is_Some (mean l) ↔ ∃ v, Some v ∈ l.
Proof.
  rewrite mean_arith_mean. split.
  - intros H. destruct (omap id l) as [|v vs] eqn:Ho; [by destruct H |].
    exists v. assert (v ∈ omap id l) as Hin by (rewrite Ho; by left).
    apply list_elem_of_omap in Hin as (x & Hx & <-). done.
  - intros [v Hv]. assert (v ∈ omap id l) as Hin.
    { apply list_elem_of_omap. by exists (Some v). }
    unfold arith_mean. destruct (omap id l); [by apply elem_of_nil in Hin | done].
Qed.

Lemma slot_average_is_Some df key i :
  is_Some (slot_average df key i) ↔ has_reading df key i.
Proof.
  unfold slot_average, slot_readings, has_reading. rewrite mean_is_Some. split.
  - intros (v & (r & Hv & [Hs Hr]%list_elem_of_filter)%list_elem_of_fmap).
    exists r. split; [done |]. split; [done |]. by exists v.
  - intros (r & Hr & Hs & [v Hv]). exists v. apply list_elem_of_fmap.
    exists r. split; [done |]. by apply list_elem_of_filter.
Qed.

Lemma notna_int_1 v : Pivot.notna_int v = 1 ↔ is_Some v.
Proof. destruct v; simpl; split; (done || by intros [? ?] || eauto). Qed.

Lemma notna_int_cases v : Pivot.notna_int v = 1 ∨ Pivot.notna_int v = 0.
Proof. destruct v; auto. Qed.

Lemma group_row_flag df g i :
  (1 ≤ i ≤ 25)%nat →
  Frame.flag i (Pivot.binary_row (group_row df g))
  = Some (Pivot.notna_int (slot_average df (g.1, Some g.2) i)).
Proof.
  intros Hi. unfold Frame.flag, Pivot.binary_row, group_row. cbn [Frame.RSSI_n].
  rewrite !list_lookup_fmap, lookup_seq_lt by lia.
  cbn [fmap option_fmap option_map]. do 3 f_equal. lia.
Qed.

Lemma flags_sum df key (l : list nat) :
  foldr Z.add 0 ((λ i, Pivot.notna_int (slot_average df key i)) <$> l)
  = Z.of_nat (length (filter (has_reading df key) l)).
Proof.
  induction l as [|i l IH]; [done |].
  csimpl. rewrite IH, filter_cons. clear IH.
  destruct (decide (has_reading df key i)) as [Hr|Hr].
  - apply slot_average_is_Some, notna_int_1 in Hr. rewrite Hr. simpl length. lia.
  - destruct (notna_int_cases (slot_average df key i)) as [H1|H0]; [| lia].
    by apply notna_int_1, slot_average_is_Some in H1.
Qed.

(** ** The pivot script: the claims *)

Lemma run_keys_NoDup df out :
  Pivot.run df = Returns out → NoDup (Frame.key <$> out).
Proof.
  intros (_ & _ & ->)%run_result. rewrite <-!list_fmap_compose.
  apply NoDup_fmap_2; [| apply output_groups_NoDup].
  intros [u t] [u' t']. unfold compose. rewrite !binary_row_key. by intros [= -> ->].
Qed.

(** C2, amended. In pivot mode a group [(user_id, timestamp)] has a row in
    the output exactly when one of its records carries a registry MAC
    address together with a signal strength, and then it has one row; a
    group in which no record matches a registry beacon has no row. *)
Theorem pivot_group_presence (df : list Raw.t) (out : list (Frame.t Z)) (g : Z * Ts.t) :
  Pivot.run df = Returns out →
  ((∃ row, row ∈ out ∧ Frame.key row = (g.1, Some g.2)) ↔
   ∃ i, has_reading df (g.1, Some g.2) i) ∧
  ((∀ r, r ∈ group_records df (g.1, Some g.2) → mac_slot (Raw.mac_address r) = None) →
   ¬ ∃ row, row ∈ out ∧ Frame.key row = (g.1, Some g.2)) ∧
  NoDup (Frame.key <$> out).
Proof.
  intros Hrun.
  assert ((∃ row, row ∈ out ∧ Frame.key row = (g.1, Some g.2)) ↔
          ∃ i, has_reading df (g.1, Some g.2) i) as Hiff.
  { split.
    - intros (row & (g' & Hg' & ->)%(run_row df out _ Hrun) & Hk).
      rewrite binary_row_key in Hk. injection Hk as H1 H2.
      by rewrite H1, H2 in Hg'.
    - intros Hi. exists (Pivot.binary_row (group_row df g)).
      split; [| apply binary_row_key]. apply (run_row df out _ Hrun). by exists g. }
  split; [exact Hiff |]. split; [| by eapply run_keys_NoDup].
  intros Hnone [i (r & Hr & Hs & _)]%Hiff. rewrite (Hnone r Hr) in Hs. done.
Qed.

(** C3, amended. In pivot mode, for every row of the output and every
    slot i in 1..25, flag i is 0 or 1, and it is 1 if and only if some
    record of the row's group carries the MAC address of slot i together
    with a signal strength value; hence the flags of a row sum to the
    number of slots that have such a reading in the group.  When no
    record of the table lacks its signal strength, flag i is 1 if and only
    if some record of the group carries the MAC address of slot i. *)
Theorem pivot_flags (df : list Raw.t) (out : list (Frame.t Z)) (row : Frame.t Z) :
  Pivot.run df = Returns out → row ∈ out →
  length (Frame.RSSI_n row) = 25%nat ∧
  (∀ i, (1 ≤ i ≤ 25)%nat →
     (Frame.flag i row = Some 1 ∨ Frame.flag i row = Some 0) ∧
     (Frame.flag i row = Some 1 ↔ has_reading df (Frame.key row) i)) ∧
  foldr Z.add 0 (Frame.RSSI_n row)
  = Z.of_nat (length (filter (has_reading df (Frame.key row)) (seq 1 25))) ∧
  ((∀ r, r ∈ df → is_Some (Raw.rssi r)) →
   ∀ i, (1 ≤ i ≤ 25)%nat →
     Frame.flag i row = Some 1 ↔
     ∃ r, r ∈ group_records df (Frame.key row) ∧
          mac_slot (Raw.mac_address r) = Some i).
Proof.
  intros Hrun (g & Hg & ->)%(run_row df out _ Hrun).
  rewrite binary_row_key.
  assert (∀ i, (1 ≤ i ≤ 25)%nat →
            Frame.flag i (Pivot.binary_row (group_row df g)) = Some 1 ↔
            has_reading df (g.1, Some g.2) i) as Hflag.
  { intros i Hi. rewrite group_row_flag by done.
    rewrite <-slot_average_is_Some, <-notna_int_1.
    split; [by intros [= ->] | by intros ->]. }
  split; [done |]. split; [| split].
  - intros i Hi. split; [| by apply Hflag].
    rewrite group_row_flag by done.
    destruct (notna_int_cases (slot_average df (g.1, Some g.2) i)) as [->| ->]; auto.
  - unfold Pivot.binary_row, group_row. cbn [Frame.RSSI_n].
    rewrite <-list_fmap_compose. apply flags_sum.
  - intros Hall i Hi. rewrite (Hflag i Hi). unfold has_reading. split.
    + intros (r & Hr & Hs & _). by exists r.
    + intros (r & Hr & Hs). exists r. split; [done |]. split; [done |].
      apply Hall. by apply list_elem_of_filter in Hr as [_ Hr].
Qed.

(** C9, amended. In pivot mode the MAC address of a row is the first
    MAC address cell that is not empty among the records of the row's
    group, in input order, and likewise its power; when the first record
    of the group has the cell filled, that is the first record's value. *)
Theorem pivot_representative (df : list Raw.t) (out : list (Frame.t Z)) (row : Frame.t Z) :
  Pivot.run df = Returns out → row ∈ out →
  Frame.mac_address row
    = first_valid (Raw.mac_address <$> group_records df (Frame.key row)) ∧
  Frame.power row
    = first_valid (Raw.column6 <$> group_records df (Frame.key row)) ∧
  (∀ r, head (group_records df (Frame.key row)) = Some r →
     (is_Some (Raw.mac_address r) → Frame.mac_address row = Raw.mac_address r) ∧
     (is_Some (Raw.column6 r) → Frame.power row = Raw.column6 r)).
Proof.
  intros Hrun (g & Hg & ->)%(run_row df out _ Hrun).
  rewrite binary_row_key. split; [done |]. split; [done |].
  intros r Hr. unfold Pivot.binary_row, group_row.
  cbn [Frame.mac_address Frame.power fst snd].
  destruct (group_records df (g.1, Some g.2)) as [|r' l]; [done |].
  injection Hr as ->. csimpl. unfold first_valid.
  split; intros [v Hv]; rewrite Hv; done.
Qed.

Lemma omap_id_fmap {A B} (f : A → option B) (l : list A) :
  omap id (f <$> l) = omap f l.
Proof.
  induction l as [|x l IH]; [done |]. csimpl. destruct (f x); csimpl; by rewrite IH.
Qed.

Lemma group_row_signal df g :
  Frame.RSSI (Pivot.binary_row (group_row df g))
  = arith_mean (omap (slot_average df (g.1, Some g.2)) (seq 1 25)).
Proof.
  unfold Pivot.binary_row, group_row. cbn [Frame.RSSI].
  by rewrite mean_arith_mean, omap_id_fmap.
Qed.

Lemma no_reading_no_average df key (l : list nat) :
  (∀ i, ¬ has_reading df key i) → omap (slot_average df key) l = [].
Proof.
  intros Hno. induction l as [|i l IH]; [done |]. csimpl.
  destruct (slot_average df key i) as [v|] eqn:Hv; [| done].
  destruct (Hno i). apply slot_average_is_Some. by exists v.
Qed.

(** C4. In pivot mode the signal strength of a row is the arithmetic mean
    of the per-slot averages of its group over the slots that have one,
    a per-slot average being the arithmetic mean of the signal strength
    values of the group's records with that slot's MAC address; the slots
    that have an average are those whose flag is 1, there is at least one
    for every row, and over no slot at all the mean is undefined.  The
    spec's scenario (-60 for beacon 1, -55 for beacon 2) gives -57.5. *)
Theorem pivot_signal_strength (df : list Raw.t) (out : list (Frame.t Z)) (row : Frame.t Z) :
  Pivot.run df = Returns out → row ∈ out →
  Frame.RSSI row
    = arith_mean (omap (slot_average df (Frame.key row)) (seq 1 25)) ∧
  (∀ i, slot_average df (Frame.key row) i
        = arith_mean (omap id (slot_readings df (Frame.key row) i))) ∧
  (∀ i, (1 ≤ i ≤ 25)%nat →
        is_Some (slot_average df (Frame.key row) i) ↔ Frame.flag i row = Some 1) ∧
  is_Some (Frame.RSSI row) ∧
  (∀ key, (∀ i, ¬ has_reading df key i) →
          arith_mean (omap (slot_average df key) (seq 1 25)) = None) ∧
  (∃ row2, Pivot.run (parser := iso8601) scenario = Returns [row2] ∧
           Frame.flag 1 row2 = Some 1 ∧ Frame.flag 2 row2 = Some 1 ∧
           Frame.RSSI row2
             = Some ((Qc_of_Z (-60) + Qc_of_Z (-55)) / Qc_of_Z 2)%Qc ∧
           Frame.RSSI row2 = Some (Qc_of_Z (-575) / Qc_of_Z 10)%Qc).
Proof.
  intros Hrun (g & Hg & ->)%(run_row df out _ Hrun).
  rewrite binary_row_key. split; [apply group_row_signal |].
  split; [intros i; apply mean_arith_mean |].
  split.
  { intros i Hi. rewrite group_row_flag by done. rewrite <-notna_int_1.
    split; [by intros -> | by intros [= ->]]. }
  split.
  { rewrite group_row_signal. destruct Hg as [i Hi].
    assert (1 ≤ i ≤ 25)%nat as Hrange.
    { destruct Hi as (r & _ & Hs & _). by apply mac_slot_range in Hs. }
    apply slot_average_is_Some in Hi as [v Hv].
    assert (v ∈ omap (slot_average df (g.1, Some g.2)) (seq 1 25)) as Hin.
    { apply list_elem_of_omap. exists i. split; [| done]. apply elem_of_seq. lia. }
    unfold arith_mean.
    destruct (omap _ _); [by apply elem_of_nil in Hin | done]. }
  split.
  { intros key Hno. by rewrite no_reading_no_average. }
  destruct (Pivot.run (parser := iso8601) scenario) as [out2|e] eqn:Hrun2;
    [| by vm_compute in Hrun2].
  destruct out2 as [|row2 [|row3 out2]];
    [by vm_compute in Hrun2 | | by vm_compute in Hrun2].
  exists row2. split; [done |].
  vm_compute in Hrun2. injection Hrun2 as <-.
  split; [done |]. split; [done |]. cbn [Frame.RSSI].
  split; f_equal; apply Qc_is_canon; reflexivity.
Qed.

(** C8, amended. A record whose timestamp text cannot be read is kept by
    flag-append mode: the conversion gives the missing-timestamp marker,
    and when the other records let the run return its table, it returns
    one with this record, as many rows as records, and in it a row with
    the record's id, MAC address, signal strength and power and with
    timestamp, date and hour missing.  In pivot mode such a record makes
    the conversion raise, and the run ends without a table. *)
Theorem unparseable_timestamp_handling (df : list Raw.t) (r : Raw.t) (raw e : string) :
  r ∈ df → Raw.timestamp r = Some raw → parse_datetime_string raw = Raises e →
  FlagAppend.to_datetime_coerce (Raw.timestamp r) = None ∧
  (FlagAppend.outcome df = Returns (FlagAppend.run df) ↔
   FlagAppend.outcome (filter (λ r', r' ≠ r) df)
   = Returns (FlagAppend.run (filter (λ r', r' ≠ r) df))) ∧
  (∀ out, FlagAppend.outcome df = Returns out →
     length out = length df ∧
     ∃ row, row ∈ out ∧
       Frame.user_id row = Raw.pid r ∧
       Frame.mac_address row = Raw.mac_address r ∧
       Frame.RSSI row = Raw.rssi r ∧
       Frame.power row = Raw.column6 r ∧
       Frame.timestamp row = None ∧
       Frame.year_month_day row = None ∧
       Frame.hour row = None) ∧
  (∃ e', Pivot.run df = Raises e').
Proof.
  intros Hr Hraw Hx.
  assert (FlagAppend.to_datetime_coerce (Raw.timestamp r) = None) as Hnat.
  { unfold FlagAppend.to_datetime_coerce, to_datetime. rewrite Hraw. cbn [mbind option_bind].
    by rewrite Hx. }
  split; [exact Hnat |]. split; [| split].
  - rewrite !outcome_Returns. apply eq_iff_eq_true. symmetry.
    apply datetimelike_filter. intros r' Hin Hne.
    destruct (decide (r' = r)) as [->|]; [exact Hnat | by destruct Hne].
  - intros out [_ ->]%outcome_Returns_inv.
    split; [by rewrite run_Permutation, length_fmap |].
    exists (FlagAppend.flag_row r).
    split; [rewrite run_Permutation; by apply list_elem_of_fmap_2 |].
    unfold FlagAppend.flag_row.
    cbn [Frame.user_id Frame.mac_address Frame.RSSI Frame.power
         Frame.timestamp Frame.year_month_day Frame.hour].
    by rewrite Hnat.
  - destruct (prepare_unparseable df) as [e' He].
    { apply Exists_exists. exists r. split; [done |]. by exists raw, e. }
    exists e'. unfold Pivot.run, Pivot.transform_and_pivot_data. by rewrite He.
Qed.

(** * Further properties *)

(** ** File names *)

Lemma startswith_spec s prefix :
  startswith s prefix = true ↔ ∃ rest, s = prefix +:+ rest.
Proof.
  revert s. induction prefix as [|a prefix IH]; intros s; simpl.
  - split; [intros _; by exists s | by destruct s].
  - destruct s as [|b s]; simpl.
    + split; [done | by intros [rest ?]].
    + rewrite andb_true_iff, Ascii.eqb_eq, IH. split.
      * intros [-> [rest ->]]. by exists rest.
      * intros [rest [= -> ->]]. split; [done | by exists rest].
Qed.

Lemma endswith_nil suffix :
  endswith EmptyString suffix = String.eqb EmptyString suffix || false.
Proof. reflexivity. Qed.

Lemma endswith_cons b s suffix :
  endswith (String b s) suffix = String.eqb (String b s) suffix || endswith s suffix.
Proof. reflexivity. Qed.

Lemma endswith_spec s suffix :
  endswith s suffix = true ↔ ∃ front, s = front +:+ suffix.
Proof.
  induction s as [|b s IH].
  - rewrite endswith_nil, orb_false_r, String.eqb_eq. split.
    + intros <-. by exists "".
    + intros [front H]. destruct front; [done | discriminate].
  - rewrite endswith_cons, orb_true_iff, String.eqb_eq, IH. split.
    + intros [<-|[front ->]]; [by exists "" | by exists (String b front)].
    + intros [[|c front] H]; [left; by rewrite H |].
      right. injection H as -> ->. by exists front.
Qed.

Lemma flag_selected_spec file :
  FlagAppendMain.selected file = true ↔
  (∃ front, file = front +:+ ".csv") ∧ (∃ rest, file = "user-ble-id_" +:+ rest).
Proof.
  unfold FlagAppendMain.selected.
  by rewrite andb_true_iff, endswith_spec, startswith_spec.
Qed.

Lemma pivot_selected_spec file :
  PivotMain.selected file = true ↔
  (∃ front, file = front +:+ ".csv") ∧
  file ≠ "BLEdata.csv" ∧ file ≠ "BLEdata2.csv" ∧ file ≠ "BLEdata3.csv".
Proof.
  unfold PivotMain.selected, PivotMain.previous_outputs.
  rewrite andb_true_iff, endswith_spec, bool_decide_eq_true.
  rewrite !not_elem_of_cons. split.
  - intros (? & ? & ? & ? & _). done.
  - intros (? & ? & ? & ?). repeat (split; [done |]). apply not_elem_of_nil.
Qed.

(** ** The loop over the files *)

Lemma read_files_from d acc csv_files :
  foldl (λ all_dfs csv_file,
           match read_csv d csv_file ≫= set_columns with
           | Returns df_temp => all_dfs ++ [df_temp]
           | Raises _ => all_dfs
           end) acc csv_files
  = acc ++ omap (readable d) csv_files.
Proof.
  revert acc. induction csv_files as [|f l IH]; intros acc; simpl.
  - by rewrite app_nil_r.
  - rewrite IH. unfold readable.
    destruct (read_csv d f ≫= set_columns); [by rewrite <-(assoc_L (++)) | done].
Qed.

Lemma read_files_omap d csv_files :
  read_files d csv_files = omap (readable d) csv_files.
Proof. unfold read_files. by rewrite read_files_from. Qed.

Lemma readable_Some d file rows :
  readable d file = Some rows ↔ read_csv d file = Returns (SixColumns rows).
Proof.
  unfold readable. destruct (read_csv d file) as [[rows'|n]|e]; simpl;
    split; intros H; try done; by injection H as ->.
Qed.

Lemma concat_frames_None all_dfs : concat_frames all_dfs = None ↔ all_dfs = [].
Proof. by destruct all_dfs. Qed.

Lemma concat_frames_Some all_dfs df :
  concat_frames all_dfs = Some df ↔ all_dfs ≠ [] ∧ df = concat all_dfs.
Proof.
  destruct all_dfs; simpl; split; try done.
  - by intros [? _].
  - by intros [= <-].
  - by intros [_ ->].
Qed.

Lemma omap_nil_iff {A B} (f : A → option B) (l : list A) :
  omap f l = [] ↔ Forall (λ x, f x = None) l.
Proof.
  induction l as [|x l IH]; csimpl; [by split; [constructor |] |].
  rewrite Forall_cons. destruct (f x).
  - split; [done | by intros [? _]].
  - rewrite IH. split; [by intros ? | by intros [_ ?]].
Qed.

Lemma omap_filter_irrelevant {A B} (f : A → option B) (P : A → Prop)
    `{!∀ x, Decision (P x)} (l : list A) :
  (∀ x, x ∈ l → ¬ P x → f x = None) → omap f (filter P l) = omap f l.
Proof.
  induction l as [|x l IH]; intros Hf; [done |].
  rewrite filter_cons. csimpl.
  assert (omap f (filter P l) = omap f l) as IH'
    by (apply IH; intros y Hy; apply Hf; by right).
  destruct (decide (P x)) as [HP|HP]; csimpl; rewrite IH'; [done |].
  rewrite (Hf x); [done | by left | done].
Qed.

Lemma elem_of_concat {A} (x : A) (ls : list (list A)) :
  x ∈ concat ls ↔ ∃ l, x ∈ l ∧ l ∈ ls.
Proof.
  induction ls as [|l0 ls IH]; simpl.
  - split; [by intros ?%elem_of_nil | by intros (? & _ & ?%elem_of_nil)].
  - rewrite elem_of_app, IH. split.
    + intros [H|(l & Hx & Hl)]; [exists l0; split; [done | by left] |].
      exists l. split; [done | by right].
    + intros (l & Hx & [->|Hl]%elem_of_cons); [by left |]. right. by exists l.
Qed.

(** The blocks the flag-append loader concatenates. *)
Lemma flag_loader_blocks d :
  FlagAppendMain.merge_individual_csv_files d
  = concat_frames
      (omap (readable d) (filter (λ f, FlagAppendMain.selected f = true) (listdir d))).
Proof. unfold FlagAppendMain.merge_individual_csv_files. by rewrite read_files_omap. Qed.

(** ** The flag-append script from the directory to the written table *)

(** X1. The flag-append loader gives up, and [main] then returns without
    transforming or writing anything, exactly when no listed file named
    [user-ble-id_....csv] reads as a six-column table; a file that fails
    to read or has another width only drops out. *)
Theorem flag_loader_none (d : directory) :
  (FlagAppendMain.merge_individual_csv_files d = None ↔
   ∀ file rest front rows,
     file ∈ listdir d → file = "user-ble-id_" +:+ rest → file = front +:+ ".csv" →
     read_csv d file ≠ Returns (SixColumns rows)) ∧
  (FlagAppendMain.main d = Returns None ↔
   FlagAppendMain.merge_individual_csv_files d = None).
Proof.
  split.
  - rewrite flag_loader_blocks, concat_frames_None, omap_nil_iff, Forall_forall.
    split.
    + intros H file rest front rows Hin Hrest Hfront Hread.
      assert (readable d file = None) as Hnone.
      { apply H, list_elem_of_filter. split; [| done].
        apply flag_selected_spec. split; [by exists front | by exists rest]. }
      apply readable_Some in Hread. congruence.
    + intros H file [[[front Hf] [rest Hr]]%flag_selected_spec Hin]%list_elem_of_filter.
      destruct (readable d file) as [rows|] eqn:Hrows; [| done].
      apply readable_Some in Hrows. by destruct (H file rest front rows).
  - unfold FlagAppendMain.main.
    destruct (FlagAppendMain.merge_individual_csv_files d) as [df|]; [| done].
    by destruct (FlagAppend.outcome df).
Qed.

(** X2. The table the flag-append loader returns holds the rows of the
    selected files that read, each file's rows as one block in the file's
    own order, nothing else: a record is in the table exactly when a
    selected readable file holds it, and the number of rows is the sum
    over the selected names that read. *)
Theorem flag_loader_rows (d : directory) (df : list Raw.t) :
  FlagAppendMain.merge_individual_csv_files d = Some df →
  (∀ r, r ∈ df ↔
        ∃ file rows, file ∈ listdir d ∧ FlagAppendMain.selected file = true ∧
                     read_csv d file = Returns (SixColumns rows) ∧ r ∈ rows) ∧
  (∀ file rows, file ∈ listdir d → FlagAppendMain.selected file = true →
                read_csv d file = Returns (SixColumns rows) →
                ∃ before after, df = before ++ rows ++ after) ∧
  length df
  = sum_list (length <$> omap (readable d)
                (filter (λ f, FlagAppendMain.selected f = true) (listdir d))).
Proof.
  rewrite flag_loader_blocks, concat_frames_Some. intros [_ ->].
  split; [| split].
  - intros r. rewrite elem_of_concat. split.
    + intros (rows & Hr & (file & [Hsel Hin]%list_elem_of_filter & Hread)%list_elem_of_omap).
      exists file, rows. by rewrite <-readable_Some.
    + intros (file & rows & Hin & Hsel & Hread & Hr). exists rows. split; [done |].
      apply list_elem_of_omap. exists file.
      split; [by apply list_elem_of_filter | by apply readable_Some].
  - intros file rows Hin Hsel Hread.
    assert (rows ∈ omap (readable d)
              (filter (λ f, FlagAppendMain.selected f = true) (listdir d))) as Hblock.
    { apply list_elem_of_omap. exists file.
      split; [by apply list_elem_of_filter | by apply readable_Some]. }
    apply list_elem_of_split in Hblock as (l1 & l2 & ->).
    exists (concat l1), (concat l2). by rewrite concat_app.
  - generalize (omap (readable d)
                  (filter (λ f, FlagAppendMain.selected f = true) (listdir d))).
    intros blocks. induction blocks as [|b blocks IH]; [done |].
    csimpl. rewrite length_app, IH. done.
Qed.

Lemma flag_loader_ignores_name d before after name :
  (FlagAppendMain.selected name = false ∨ readable d name = None) →
  FlagAppendMain.merge_individual_csv_files (with_listdir d (before ++ name :: after))
  = FlagAppendMain.merge_individual_csv_files (with_listdir d (before ++ after)).
Proof.
  intros Hname. rewrite !flag_loader_blocks. f_equal.
  cbn [with_listdir listdir]. rewrite !filter_app, !omap_app.
  f_equal. rewrite filter_cons.
  change (readable (with_listdir d (before ++ name :: after)))
    with (readable (with_listdir d (before ++ after))).
  destruct (decide (FlagAppendMain.selected name = true)) as [Hsel|Hsel]; [| done].
  destruct Hname as [Hname|Hname]; [congruence |].
  csimpl. change (readable (with_listdir d (before ++ after)) name) with (readable d name).
  by rewrite Hname.
Qed.

(** X3. A name the flag-append loader does not select, or a file that does
    not read as a six-column table, has no influence: with or without it
    in the listing, at any position, the loader and [main] give the same.
    The outputs [BLEdata.csv], [BLEdata2.csv] and [BLEdata3.csv] are such
    names, so a table written into the data directory is not read back. *)
Theorem flag_loader_ignores (d : directory) (before after : list string) (name : string) :
  (FlagAppendMain.selected name = false ∨
   ∀ rows, read_csv d name ≠ Returns (SixColumns rows)) →
  FlagAppendMain.merge_individual_csv_files (with_listdir d (before ++ name :: after))
  = FlagAppendMain.merge_individual_csv_files (with_listdir d (before ++ after)) ∧
  FlagAppendMain.main (with_listdir d (before ++ name :: after))
  = FlagAppendMain.main (with_listdir d (before ++ after)) ∧
  Forall (λ out, FlagAppendMain.selected out = false) PivotMain.previous_outputs.
Proof.
  intros Hname.
  assert (FlagAppendMain.merge_individual_csv_files (with_listdir d (before ++ name :: after))
          = FlagAppendMain.merge_individual_csv_files (with_listdir d (before ++ after)))
    as Heq.
  { apply flag_loader_ignores_name. destruct Hname as [?|Hname]; [by left | right].
    destruct (readable d name) as [rows|] eqn:Hr; [| done].
    apply readable_Some in Hr. by destruct (Hname rows). }
  split; [exact Heq |]. split; [unfold FlagAppendMain.main; by rewrite Heq |].
  unfold PivotMain.previous_outputs. repeat constructor.
Qed.

(** X4. When the flag-append [main] writes a table, the table has one row
    per record of the merged files, each the [flag_row] of its record, in
    non-decreasing order of [(user_id, timestamp)], and the timestamps of
    the merged files made a datetime column. *)
Theorem flag_main_end_to_end (d : directory) (out : list (Frame.t Z)) :
  FlagAppendMain.main d = Returns (Some out) →
  ∃ df, FlagAppendMain.merge_individual_csv_files d = Some df ∧
        out = FlagAppend.run df ∧
        out ≡ₚ FlagAppend.flag_row <$> df ∧
        length out = length df ∧
        StronglySorted (λ r1 r2 : Frame.t Z, key_leb (Frame.key r1) (Frame.key r2) = true) out ∧
        datetimelike (FlagAppend.dt df) = true.
Proof.
  unfold FlagAppendMain.main.
  destruct (FlagAppendMain.merge_individual_csv_files d) as [df|]; [| done].
  destruct (FlagAppend.outcome df) as [out'|e] eqn:Hout; [| done].
  apply outcome_Returns_inv in Hout as [Hdt ->].
  intros [= <-]. exists df. split; [done |]. split; [done |].
  change (FlagAppendMain.save_output (FlagAppend.run df)) with (FlagAppend.run df).
  split; [apply run_Permutation |].
  split; [by rewrite run_Permutation, length_fmap |].
  split; [| exact Hdt].
  apply (mergesort_sorted row_leb); [apply row_leb_total | apply row_leb_trans].
Qed.

(** ** The pivot script from the directory to the written table *)

Lemma no_unparseable_dec df :
  {Forall (λ r, ¬ Pivot.unparseable r) df} + {Exists Pivot.unparseable df}.
Proof.
  apply Forall_Exists_dec. intros r.
  destruct (unparseable_dec r) as [Hr|Hr]; [by right | by left].
Defined.

Lemma run_Raises df e :
  Pivot.run df = Raises e →
  Exists Pivot.unparseable df ∨ datetimelike (FlagAppend.dt df) = false.
Proof.
  intros Hrun. destruct (no_unparseable_dec df) as [Hno|Hex]; [| by left].
  destruct (datetimelike (FlagAppend.dt df)) eqn:Hdt; [| by right].
  pose proof (proj2 (run_result df _) (conj Hno (conj Hdt eq_refl))). congruence.
Qed.

Lemma run_unparseable df :
  Exists Pivot.unparseable df → ∃ e, Pivot.run df = Raises e.
Proof.
  intros [e He]%prepare_unparseable. exists e.
  unfold Pivot.run, Pivot.transform_and_pivot_data. by rewrite He.
Qed.

Lemma run_not_datetimelike df :
  datetimelike (FlagAppend.dt df) = false → ∃ e, Pivot.run df = Raises e.
Proof.
  intros [e He]%prepare_not_datetimelike. exists e.
  unfold Pivot.run, Pivot.transform_and_pivot_data. by rewrite He.
Qed.

Lemma pivot_loader_blocks d :
  merged_exists d = false →
  PivotMain.merge_individual_csv_files d
  = Returns (concat_frames
               (omap (readable d) (filter (λ f, PivotMain.selected f = true) (listdir d)))).
Proof.
  intros Hm. unfold PivotMain.merge_individual_csv_files.
  by rewrite Hm, read_files_omap.
Qed.

(** X6. Without [BLEdata2.csv], what the pivot loader returns once the
    directory is listed comes from every listed file whose name ends in
    [.csv], whatever the rest of the name, except [BLEdata.csv],
    [BLEdata2.csv] and [BLEdata3.csv]: it is [None] exactly when none of
    these files reads as a six-column table, and otherwise a table that
    holds exactly the rows of those that do; a file that does not read
    only drops out. *)
Theorem pivot_loader_fresh (d : directory) (loaded : option (list Raw.t)) :
  merged_exists d = false →
  PivotMain.merge_individual_csv_files d = Returns loaded →
  (loaded = None ↔
   ∀ file front rows,
     file ∈ listdir d → file = front +:+ ".csv" →
     file ∉ PivotMain.previous_outputs →
     read_csv d file ≠ Returns (SixColumns rows)) ∧
  (∀ df, loaded = Some df →
     ∀ r, r ∈ df ↔
          ∃ file front rows,
            file ∈ listdir d ∧ file = front +:+ ".csv" ∧
            (file ∉ PivotMain.previous_outputs) ∧
            read_csv d file = Returns (SixColumns rows) ∧ r ∈ rows).
Proof.
  intros Hm. rewrite pivot_loader_blocks by done. intros [= <-].
  assert (∀ file, PivotMain.selected file = true ↔
                  (∃ front, file = front +:+ ".csv") ∧ (file ∉ PivotMain.previous_outputs))
    as Hsel.
  { intros file. unfold PivotMain.selected.
    by rewrite andb_true_iff, endswith_spec, bool_decide_eq_true. }
  split.
  - rewrite concat_frames_None, omap_nil_iff, Forall_forall. split.
    + intros H file front rows Hin Hfront Hprev Hread.
      assert (readable d file = None) as Hnone.
      { apply H, list_elem_of_filter. split; [| done].
        apply Hsel. split; [by exists front | done]. }
      apply readable_Some in Hread. congruence.
    + intros H file [[[front Hf] Hprev]%Hsel Hin]%list_elem_of_filter.
      destruct (readable d file) as [rows|] eqn:Hrows; [| done].
      apply readable_Some in Hrows. by destruct (H file front rows).
  - intros df [_ ->]%concat_frames_Some r. rewrite elem_of_concat. split.
    + intros (rows & Hr & (file & [[[front Hf] Hprev]%Hsel Hin]%list_elem_of_filter
                           & Hread)%list_elem_of_omap).
      exists file, front, rows. by rewrite <-readable_Some.
    + intros (file & front & rows & Hin & Hf & Hprev & Hread & Hr).
      exists rows. split; [done |]. apply list_elem_of_omap. exists file.
      split; [| by apply readable_Some].
      apply list_elem_of_filter. split; [| done]. apply Hsel. split; [by exists front | done].
Qed.

(** X7. The pivot [main] ends with an exception whenever the loader
    raises, or a record of the loaded table has a timestamp text that
    cannot be read, or the timestamps of the loaded table make no
    datetime column; it ends without writing and without an exception
    exactly when the loader found nothing; and when it writes a table,
    the loader returned one whose timestamp texts could all be read into
    a datetime column, and the table written is the binarised pivot of
    it. *)
Theorem pivot_main_outcome (d : directory) :
  (∀ e, PivotMain.merge_individual_csv_files d = Raises e →
        PivotMain.main d = Raises e) ∧
  (∀ df, PivotMain.merge_individual_csv_files d = Returns (Some df) →
         Exists Pivot.unparseable df ∨ datetimelike (FlagAppend.dt df) = false →
         ∃ e, PivotMain.main d = Raises e) ∧
  (PivotMain.main d = Returns None ↔
   PivotMain.merge_individual_csv_files d = Returns None) ∧
  (∀ out, PivotMain.main d = Returns (Some out) →
          ∃ df, PivotMain.merge_individual_csv_files d = Returns (Some df) ∧
                Forall (λ r, ¬ Pivot.unparseable r) df ∧
                datetimelike (FlagAppend.dt df) = true ∧
                Pivot.run df = Returns out).
Proof.
  unfold PivotMain.main.
  destruct (PivotMain.merge_individual_csv_files d) as [[df|]|e0] eqn:Hload;
    cbn [mbind exc_bind].
  - assert (∀ res, (df' ← Pivot.transform_and_pivot_data df;
                    mret (Some (PivotMain.save_output (Pivot.convert_rssi_to_binary df'))))
                   = res ↔
                   match Pivot.run df with
                   | Returns out => res = Returns (Some out)
                   | Raises e => res = Raises e
                   end) as Hres.
    { intros res. unfold Pivot.run.
      destruct (Pivot.transform_and_pivot_data df);
        (split; [intros <-; reflexivity | intros ->; reflexivity]). }
    split; [done |]. split; [| split].
    + intros df' [= <-] Hbad.
      assert (∃ e, Pivot.run df = Raises e) as [e He].
      { destruct Hbad; [by apply run_unparseable | by apply run_not_datetimelike]. }
      exists e. apply Hres. by rewrite He.
    + split; [| done]. intros Hnone%Hres. by destruct (Pivot.run df).
    + intros out Hout%Hres. exists df. split; [done |].
      destruct (Pivot.run df) as [out'|e] eqn:Hrun; [| done].
      injection Hout as <-.
      pose proof Hrun as (Hall & Hdt & _)%run_result. done.
  - split; [done |]. split; [done |]. split; [done |]. done.
  - split; [by intros e [= <-] |]. split; [done |]. split; [done |]. done.
Qed.

(** ** Dates and hours of the rows *)

Lemma record_key_timestamp r t :
  (record_key r).2 = Some t →
  Ts.tz t = None ∧ 0 ≤ Ts.hour t ≤ 23 ∧
  ∃ raw x, Raw.timestamp r = Some raw ∧ to_datetime raw = Some x ∧
           t = tz_localize_None x.
Proof.
  unfold record_key. cbn [snd].
  destruct (Raw.timestamp r) as [raw|]; [| done]. cbn [mbind option_bind].
  destruct (to_datetime raw) as [x|] eqn:Hx; [| done]. intros [= <-].
  split; [done |].
  split; [exact (valid_hour x (to_datetime_valid raw x Hx)) |].
  by exists raw, x.
Qed.

Lemma flag_row_key r : Frame.key (FlagAppend.flag_row r) = record_key r.
Proof. reflexivity. Qed.

Lemma flag_row_dates r :
  Frame.year_month_day (FlagAppend.flag_row r)
    = strftime_ymd <$> Frame.timestamp (FlagAppend.flag_row r) ∧
  Frame.hour (FlagAppend.flag_row r) = Ts.hour <$> Frame.timestamp (FlagAppend.flag_row r).
Proof.
  unfold FlagAppend.flag_row. cbn [Frame.year_month_day Frame.hour Frame.timestamp].
  by destruct (FlagAppend.to_datetime_coerce (Raw.timestamp r)).
Qed.

(** X8. In the table of either script the date and hour cells belong to
    the row's own timestamp: they are the timestamp's [YYYY-MM-DD] text
    (ten characters) and its hour, between 0 and 23, the timestamp has no
    timezone, and in flag-append mode both are missing exactly when the
    timestamp is; a row of the pivot table always has a timestamp. *)
Theorem output_dates (df : list Raw.t) :
  (∀ row, row ∈ FlagAppend.run df →
     Frame.year_month_day row = strftime_ymd <$> Frame.timestamp row ∧
     Frame.hour row = Ts.hour <$> Frame.timestamp row ∧
     ∀ t, Frame.timestamp row = Some t →
          Ts.tz t = None ∧ 0 ≤ Ts.hour t ≤ 23 ∧ String.length (strftime_ymd t) = 10%nat) ∧
  (∀ out row, Pivot.run df = Returns out → row ∈ out →
     ∃ t, Frame.timestamp row = Some t ∧
          Frame.year_month_day row = Some (strftime_ymd t) ∧
          Frame.hour row = Some (Ts.hour t) ∧
          Ts.tz t = None ∧ 0 ≤ Ts.hour t ≤ 23 ∧ String.length (strftime_ymd t) = 10%nat).
Proof.
  split.
  - intros row. rewrite run_Permutation. intros (r & -> & _)%list_elem_of_fmap.
    destruct (flag_row_dates r) as [Hd Hh]. split; [done |]. split; [done |].
    intros t Ht.
    destruct (record_key_timestamp r t) as (Htz & Hhour & _); [by rewrite <-flag_row_key |].
    done.
  - intros out row Hrun (g & [i (r & [Hk Hr]%list_elem_of_filter & _)] & ->)%(run_row df out _ Hrun).
    destruct g as [u t]. exists t. repeat (split; [done |]).
    destruct (record_key_timestamp r t) as (Htz & Hhour & _); [by rewrite Hk |].
    done.
Qed.

(** ** Rows without timestamp in the sorted table *)

Lemma StronglySorted_middle {A} (R : relation A) l1 a l2 b l3 :
  StronglySorted R (l1 ++ a :: l2 ++ b :: l3) → R a b.
Proof.
  intros Hs%StronglySorted_app_1_r.
  apply StronglySorted_inv in Hs as [_ Hall].
  rewrite Forall_app, Forall_cons in Hall. tauto.
Qed.

(** X9. In the flag-append table a row never comes before a row of a
    smaller user id, and among the rows of one user those without
    timestamp (missing or unparseable text) come after all the others,
    earlier instants coming first. *)
Theorem flag_append_missing_last (df : list Raw.t)
    (l1 l2 l3 : list (Frame.t Z)) (r1 r2 : Frame.t Z) :
  FlagAppend.run df = l1 ++ r1 :: l2 ++ r2 :: l3 →
  Frame.user_id r1 ≤ Frame.user_id r2 ∧
  (Frame.user_id r1 = Frame.user_id r2 →
   (Frame.timestamp r1 = None → Frame.timestamp r2 = None) ∧
   (∀ t1 t2, Frame.timestamp r1 = Some t1 → Frame.timestamp r2 = Some t2 →
             lex_leb (Ts.fields t1) (Ts.fields t2) = true)).
Proof.
  intros Hrun.
  assert (key_leb (Frame.key r1) (Frame.key r2) = true) as Hle.
  { apply (StronglySorted_middle
             (λ r1 r2 : Frame.t Z, key_leb (Frame.key r1) (Frame.key r2) = true) l1 r1 l2 r2 l3).
    rewrite <-Hrun.
    apply (mergesort_sorted row_leb); [apply row_leb_total | apply row_leb_trans]. }
  unfold Frame.key in Hle. apply key_leb_spec in Hle.
  split; [lia |]. intros Hu. destruct Hle as [?|[_ Hle]]; [lia |].
  split.
  - intros H1. rewrite H1 in Hle. by destruct (Frame.timestamp r2).
  - intros t1 t2 H1 H2. by rewrite H1, H2 in Hle.
Qed.

(** ** The two scripts on the same table *)

Lemma flag_row_flag_1 r i :
  (1 ≤ i ≤ 25)%nat →
  Frame.flag i (FlagAppend.flag_row r) = Some 1 ↔ mac_slot (Raw.mac_address r) = Some i.
Proof.
  intros Hi. rewrite flag_row_flag by done.
  case_decide; split; (done || by intros [= ]).
Qed.

(** X10. The flags of the two scripts agree row by row: flag i of a row
    of the pivot table is 1 exactly when the flag-append table has a row
    of the same [(user_id, timestamp)] with flag i set and a signal
    strength. *)
Theorem pivot_flags_from_flag_append (df : list Raw.t) (out : list (Frame.t Z))
    (row : Frame.t Z) (i : nat) :
  Pivot.run df = Returns out → row ∈ out → (1 ≤ i ≤ 25)%nat →
  Frame.flag i row = Some 1 ↔
  ∃ frow, frow ∈ FlagAppend.run df ∧ Frame.key frow = Frame.key row ∧
          Frame.flag i frow = Some 1 ∧ is_Some (Frame.RSSI frow).
Proof.
  intros Hrun Hrow Hi.
  pose proof Hrow as (g & Hg & ->)%(run_row df out _ Hrun).
  rewrite group_row_flag by done. rewrite binary_row_key.
  assert (Some (Pivot.notna_int (slot_average df (g.1, Some g.2) i)) = Some 1 ↔
          has_reading df (g.1, Some g.2) i) as ->.
  { rewrite <-slot_average_is_Some, <-notna_int_1. split; [by intros [= ->] | by intros ->]. }
  unfold has_reading. split.
  - intros (r & [Hk Hr]%list_elem_of_filter & Hs & Hv).
    exists (FlagAppend.flag_row r).
    split; [rewrite run_Permutation; by apply list_elem_of_fmap_2 |].
    split; [by rewrite flag_row_key |].
    split; [by apply flag_row_flag_1 | done].
  - intros (frow & Hin & Hk & Hf & Hv). rewrite run_Permutation in Hin.
    apply list_elem_of_fmap in Hin as (r & -> & Hr).
    exists r. split; [apply list_elem_of_filter; by rewrite <-flag_row_key |].
    split; [by apply flag_row_flag_1 | done].
Qed.

(** ** The order of the pivot table *)

Section mergesort_ext.
Context {A : Type} (le le' : A → A → bool).

Lemma merge_ext l1 l2 :
  (∀ x y, x ∈ l1 → y ∈ l2 → le x y = le' x y) →
  merge le l1 l2 = merge le' l1 l2.
Proof.
  revert l2. induction l1 as [|x1 l1 IH1]; intros l2 Hext;
    [by rewrite !merge_nil_l |].
  induction l2 as [|x2 l2 IH2]; [by rewrite !merge_nil_r |].
  rewrite !merge_cons, <-(Hext x1 x2) by (by left).
  destruct (le x1 x2).
  - f_equal. apply IH1. intros x y Hx Hy. apply Hext; [by right | done].
  - f_equal. apply IH2. intros x y Hx Hy. apply Hext; [done | by right].
Qed.

Lemma merge_pairs_ext runs :
  (∀ x y, x ∈ concat runs → y ∈ concat runs → le x y = le' x y) →
  merge_pairs le runs = merge_pairs le' runs.
Proof.
  induction runs as [runs IH] using (induction_ltof1 _ length). intros Hext.
  destruct runs as [|a [|b rest]]; [done | done |].
  simpl. f_equal.
  - apply merge_ext. intros x y Hx Hy. apply Hext; simpl; rewrite !elem_of_app; auto.
  - apply IH; [unfold ltof; simpl; lia |].
    intros x y Hx Hy. apply Hext; simpl; rewrite !elem_of_app; auto.
Qed.

Lemma merge_all_ext fuel runs :
  (∀ x y, x ∈ concat runs → y ∈ concat runs → le x y = le' x y) →
  merge_all le fuel runs = merge_all le' fuel runs.
Proof.
  revert runs. induction fuel as [|fuel IH]; intros runs Hext; [done |].
  destruct runs as [|a [|b rest]]; [done | done |].
  cbn [merge_all]. rewrite <-(merge_pairs_ext (a :: b :: rest)) by done.
  apply IH. intros x y Hx Hy.
  apply Hext; by rewrite <-(merge_pairs_Permutation le).
Qed.

Lemma mergesort_ext l :
  (∀ x y, x ∈ l → y ∈ l → le x y = le' x y) →
  mergesort le l = mergesort le' l.
Proof.
  intros Hext. apply merge_all_ext.
  assert (concat ((λ x, [x]) <$> l) = l) as ->; [| done].
  induction l as [|x l IH]; [done |]. csimpl. f_equal. apply IH.
  intros y z Hy Hz. apply Hext; by right.
Qed.
End mergesort_ext.

Lemma lex_leb_antisym a b :
  length a = length b → lex_leb a b = true → lex_leb b a = true → a = b.
Proof.
  revert b. induction a as [|x a IH]; intros [|y b]; simpl; try done.
  intros [= Hlen] H1 H2. bool_prop.
  destruct H1 as [H1|[-> H1]], H2 as [H2|[H2' H2]]; try lia.
  f_equal. by apply IH.
Qed.

Lemma ts_leb_antisym t1 t2 :
  Ts.tz t1 = None → Ts.tz t2 = None →
  ts_leb t1 t2 = true → ts_leb t2 t1 = true → t1 = t2.
Proof.
  intros Hz1 Hz2 H1 H2.
  assert (Ts.fields t1 = Ts.fields t2) as Hf by (by apply lex_leb_antisym).
  destruct t1, t2. simpl in *. injection Hf as -> -> -> -> -> -> ->. congruence.
Qed.

Lemma key_leb_antisym u1 t1 u2 t2 :
  Ts.tz t1 = None → Ts.tz t2 = None →
  key_leb (u1, Some t1) (u2, Some t2) = true →
  key_leb (u2, Some t2) (u1, Some t1) = true →
  (u1, t1) = (u2, t2).
Proof.
  intros Hz1 Hz2 [H1|[-> H1]]%key_leb_spec [H2|[H2' H2]]%key_leb_spec; try lia.
  f_equal. by apply ts_leb_antisym.
Qed.

Lemma pivot_index_order df :
  Pivot.pivot_index (Pivot.prepared_of <$> df)
  = mergesort (λ k1 k2 : Z * Ts.t * string * Z,
                 key_leb (k1.1.1.1, Some k1.1.1.2) (k2.1.1.1, Some k2.1.1.2))
      (remove_dups (omap Pivot.cell_index (Pivot.prepared_of <$> df))).
Proof.
  unfold Pivot.pivot_index. apply mergesort_ext.
  assert (∀ k, k ∈ remove_dups (omap Pivot.cell_index (Pivot.prepared_of <$> df)) →
               k.1.2 = strftime_ymd k.1.1.2 ∧ k.2 = Ts.hour k.1.1.2 ∧
               Ts.tz k.1.1.2 = None) as Hshape.
  { intros [[[u t] d] h] Hk.
    assert ((u, t, d, h) ∈ Pivot.pivot_index (Pivot.prepared_of <$> df)) as Hin
      by (unfold Pivot.pivot_index; by rewrite mergesort_elem_of).
    apply pivot_index_elem_of in Hin as (-> & -> & i & r & [Hkey _]%list_elem_of_filter & _).
    cbn [fst snd]. split; [done |]. split; [done |].
    destruct (record_key_timestamp r t) as (Htz & _); [by rewrite Hkey | done]. }
  intros [[[u1 t1] d1] h1] [[[u2 t2] d2] h2] H1 H2.
  destruct (Hshape _ H1) as (Hd1 & Hh1 & Hz1), (Hshape _ H2) as (Hd2 & Hh2 & Hz2).
  cbn [fst snd] in *. unfold Pivot.index_leb, key_leb. cbn [fst snd nat_last_leb].
  destruct (u1 <? u2); [done |]. destruct (u1 =? u2); [| done]. cbn [orb andb].
  destruct (ts_leb t1 t2) eqn:H12, (ts_leb t2 t1) eqn:H21; cbn [negb orb andb]; try done.
  - assert (t1 = t2) as -> by (by apply ts_leb_antisym). subst.
    by rewrite String.eqb_refl, Z.leb_refl, orb_true_r.
  - destruct (lex_leb_total (Ts.fields t1) (Ts.fields t2)); unfold ts_leb in *; congruence.
Qed.

Lemma StronglySorted_strict {A K} (R : relation K) (key : A → K) (l : list A) :
  StronglySorted (λ x y, R (key x) (key y)) l → NoDup (key <$> l) →
  StronglySorted (λ x y, R (key x) (key y) ∧ key x ≠ key y) l.
Proof.
  induction 1 as [|x l Hs IH Hx]; intros Hnd; [constructor |].
  rewrite fmap_cons in Hnd. apply list.NoDup_cons in Hnd as [Hin Hnd].
  constructor; [by apply IH |].
  apply Forall_forall. intros y Hy. split; [by eapply Forall_forall in Hx |].
  intros Heq. apply Hin. rewrite Heq. by apply list_elem_of_fmap_2.
Qed.

Lemma StronglySorted_fmap_key {A B} (R : relation B) (f : A → B) (l : list A) :
  StronglySorted (λ x y, R (f x) (f y)) l → StronglySorted R (f <$> l).
Proof.
  induction 1 as [|x l Hs IH Hx]; csimpl; constructor; [done |].
  by apply Forall_fmap.
Qed.

Lemma length_remove_dups_le {A} `{!EqDecision A} (l : list A) :
  (length (remove_dups l) ≤ length l)%nat.
Proof.
  induction l as [|x l IH]; [done |]. simpl.
  destruct (decide_rel _ x l); simpl; lia.
Qed.

Lemma length_omap_le {A B} (f : A → option B) (l : list A) :
  (length (omap f l) ≤ length l)%nat.
Proof.
  induction l as [|x l IH]; [done |]. csimpl. destruct (f x); simpl; lia.
Qed.

Lemma pivot_rows_sorted df :
  StronglySorted (λ r1 r2 : Frame.t Z, key_leb (Frame.key r1) (Frame.key r2) = true)
    (Pivot.binary_row <$>
       (group_row df <$> Pivot.output_groups (Pivot.prepared_of <$> df))).
Proof.
  rewrite <-list_fmap_compose.
  apply (StronglySorted_fmap_key
           (λ r1 r2 : Frame.t Z, key_leb (Frame.key r1) (Frame.key r2) = true)).
  unfold Pivot.output_groups. rewrite pivot_index_order.
  apply (StronglySorted_fmap_key
           (λ g1 g2 : Z * Ts.t,
              key_leb (Frame.key (Pivot.binary_row (group_row df g1)))
                      (Frame.key (Pivot.binary_row (group_row df g2))) = true)).
  apply (mergesort_sorted
           (λ k1 k2 : Z * Ts.t * string * Z,
              key_leb (k1.1.1.1, Some k1.1.1.2) (k2.1.1.1, Some k2.1.1.2))).
  - intros x y. apply key_leb_total.
  - intros x y z. apply key_leb_trans.
Qed.

(** X11. The pivot table comes in strictly increasing order of
    [(user_id, timestamp)]: no key occurs twice, so there are never more
    rows than records, and an empty table gives an empty table. *)
Theorem pivot_sorted (df : list Raw.t) (out : list (Frame.t Z)) :
  Pivot.run df = Returns out →
  StronglySorted (λ r1 r2 : Frame.t Z,
                    key_leb (Frame.key r1) (Frame.key r2) = true ∧
                    Frame.key r1 ≠ Frame.key r2) out ∧
  (length out ≤ length df)%nat ∧
  (df = [] → out = []).
Proof.
  intros Hrun. pose proof (run_keys_NoDup df out Hrun) as Hnd.
  pose proof Hrun as (_ & _ & ->)%run_result.
  assert (length (Pivot.output_groups (Pivot.prepared_of <$> df)) ≤ length df)%nat as Hlen.
  { unfold Pivot.output_groups, Pivot.pivot_index.
    rewrite length_fmap, mergesort_length.
    etrans; [apply length_remove_dups_le |]. etrans; [apply length_omap_le |].
    by rewrite length_fmap. }
  split; [| split].
  - apply (StronglySorted_strict (λ k1 k2, key_leb k1 k2 = true) Frame.key); [| done].
    apply pivot_rows_sorted.
  - by rewrite !length_fmap.
  - intros ->. done.
Qed.

(** ** Records that do not reach the pivot *)

Lemma run_cases df :
  Pivot.run df =
  match Pivot.prepare df with
  | Returns _ =>
      Returns (Pivot.binary_row <$>
                 (group_row df <$> Pivot.output_groups (Pivot.prepared_of <$> df)))
  | Raises e => Raises e
  end.
Proof.
  destruct (Pivot.prepare df) as [pdf|e] eqn:Hp.
  - apply prepare_Returns in Hp as (Hall & Hdt & _). by apply run_result.
  - unfold Pivot.run, Pivot.transform_and_pivot_data. by rewrite Hp.
Qed.

Lemma dt_column_Returns df dt :
  mapM (λ r, Pivot.to_datetime_raise (Raw.timestamp r)) df = Returns dt →
  Forall (λ r, ¬ Pivot.unparseable r) df ∧ dt = FlagAppend.dt df.
Proof.
  intros Hdt. destruct (no_unparseable_dec df) as [Hno|Hex].
  - split; [done |]. rewrite dt_column_parsed in Hdt by done. congruence.
  - destruct (dt_column_unparseable df Hex) as [e He]. congruence.
Qed.

Lemma dt_column_filter_agree (P : Raw.t → Prop) `{!∀ r, Decision (P r)} df :
  (∀ r, ¬ P r → Raw.timestamp r = None) →
  match mapM (λ r, Pivot.to_datetime_raise (Raw.timestamp r)) df,
        mapM (λ r, Pivot.to_datetime_raise (Raw.timestamp r)) (filter P df) with
  | Returns _, Returns _ => True
  | Raises e, Raises e' => e = e'
  | _, _ => False
  end.
Proof.
  intros HP. induction df as [|r df IH]; [done |].
  rewrite filter_cons, mapM_exc_cons.
  destruct (decide (P r)) as [Hr|Hr].
  - rewrite mapM_exc_cons.
    destruct (Pivot.to_datetime_raise (Raw.timestamp r)); cbn [mbind exc_bind]; [| done].
    destruct (mapM _ df), (mapM _ (filter P df)); done.
  - rewrite (HP r Hr). cbn [Pivot.to_datetime_raise mbind exc_bind].
    destruct (mapM _ df), (mapM _ (filter P df)); done.
Qed.

Lemma prepare_filter_agree (P : Raw.t → Prop) `{!∀ r, Decision (P r)} df :
  (∀ r, ¬ P r → Raw.timestamp r = None) →
  match Pivot.prepare df, Pivot.prepare (filter P df) with
  | Returns _, Returns _ => True
  | Raises e, Raises e' => e = e'
  | _, _ => False
  end.
Proof.
  intros HP. unfold Pivot.prepare.
  pose proof (dt_column_filter_agree P df HP) as Hcol.
  destruct (mapM _ df) as [dt|e] eqn:Hdt,
           (mapM _ (filter P df)) as [dt'|e'] eqn:Hdt'; [| done | done | done].
  apply dt_column_Returns in Hdt as [Hall ->].
  apply dt_column_Returns in Hdt' as [Hall' ->].
  cbn [mbind exc_bind].
  rewrite (datetimelike_filter P df).
  2:{ intros r _ Hr. by rewrite (HP r Hr). }
  destruct (datetimelike (FlagAppend.dt df)); [| done].
  by rewrite !prepare_rows_parsed.
Qed.

Lemma omap_fmap_compose {A B C} (f : B → option C) (g : A → B) (l : list A) :
  omap f (g <$> l) = omap (λ x, f (g x)) l.
Proof.
  induction l as [|x l IH]; [done |]. csimpl. by rewrite IH.
Qed.

Lemma output_groups_filter (P : Raw.t → Prop) `{!∀ r, Decision (P r)} df :
  (∀ r, ¬ P r → Pivot.cell_index (Pivot.prepared_of r) = None) →
  Pivot.output_groups (Pivot.prepared_of <$> filter P df)
  = Pivot.output_groups (Pivot.prepared_of <$> df).
Proof.
  intros HP. unfold Pivot.output_groups, Pivot.pivot_index. do 3 f_equal.
  rewrite !omap_fmap_compose.
  apply omap_filter_irrelevant. intros r _. apply HP.
Qed.

Lemma cell_index_None_timestamp r :
  ¬ is_Some (Raw.timestamp r) → Pivot.cell_index (Pivot.prepared_of r) = None.
Proof.
  intros Hr. unfold Pivot.cell_index, Pivot.index_of, Pivot.prepared_of.
  cbn [Pivot.rssi_column Pivot.RSSI Pivot.timestamp].
  destruct (Raw.timestamp r); [by destruct Hr |]. by repeat case_match.
Qed.

Lemma cell_index_None_mac r :
  ¬ is_Some (mac_slot (Raw.mac_address r)) →
  Pivot.cell_index (Pivot.prepared_of r) = None.
Proof.
  intros Hr. unfold Pivot.cell_index.
  destruct (Pivot.rssi_column (Pivot.prepared_of r)) as [col|] eqn:Hcol; [| done].
  apply rssi_column_slot in Hcol as (j & _ & Hs). destruct Hr. by eexists.
Qed.

Lemma record_key_has_timestamp r u t :
  record_key r = (u, Some t) → is_Some (Raw.timestamp r).
Proof.
  unfold record_key. destruct (Raw.timestamp r); [by eexists | done].
Qed.

Lemma group_records_filter (P : Raw.t → Prop) `{!∀ r, Decision (P r)} df key :
  (∀ r, record_key r = key → P r) →
  group_records (filter P df) key = group_records df key.
Proof.
  intros HP. unfold group_records. by apply list_filter_filter_l.
Qed.

(** X12. In pivot mode a record whose timestamp cell is empty raises
    nothing and reaches no row: the run gives the same, result or
    exception, with these records taken out of the table. *)
Theorem pivot_drops_missing_timestamps (df : list Raw.t) :
  Pivot.run df = Pivot.run (filter (λ r, is_Some (Raw.timestamp r)) df).
Proof.
  rewrite !run_cases.
  pose proof (prepare_filter_agree (λ r, is_Some (Raw.timestamp r)) df) as Hagree.
  destruct (Pivot.prepare df) as [pdf|e],
    (Pivot.prepare (filter (λ r, is_Some (Raw.timestamp r)) df)) as [pdf'|e'].
  - f_equal. rewrite output_groups_filter by apply cell_index_None_timestamp.
    f_equal. apply list_fmap_ext. intros _ g _. unfold group_row.
    assert (group_records (filter (λ r, is_Some (Raw.timestamp r)) df) (g.1, Some g.2)
            = group_records df (g.1, Some g.2)) as Hg
      by (apply group_records_filter; intros r; apply record_key_has_timestamp).
    unfold slot_average, slot_readings. by rewrite Hg.
  - destruct Hagree. intros r Hr. destruct (Raw.timestamp r); [destruct Hr; eauto | done].
  - destruct Hagree. intros r Hr. destruct (Raw.timestamp r); [destruct Hr; eauto | done].
  - f_equal. apply Hagree. intros r Hr.
    destruct (Raw.timestamp r); [destruct Hr; eauto | done].
Qed.

Lemma slot_readings_known df key i :
  slot_readings (filter (λ r, is_Some (mac_slot (Raw.mac_address r))) df) key i
  = slot_readings df key i.
Proof.
  unfold slot_readings, group_records. f_equal.
  rewrite !list_filter_filter. apply list_filter_iff. intros r.
  split; [tauto |]. intros [Hs Hk]. split; [done |]. exists i. exact Hs.
Qed.

(** X13. In pivot mode the records whose MAC address is not registered
    can only show in the representative [mac_address] and [power] cells:
    without them the run still succeeds and gives the same rows in the
    same order, with the same signal strength, date, hour and flags. *)
Theorem pivot_unknown_macs_only_representative (df : list Raw.t) (out : list (Frame.t Z)) :
  Pivot.run df = Returns out →
  ∃ out',
    Pivot.run (filter (λ r, is_Some (mac_slot (Raw.mac_address r))) df) = Returns out' ∧
    (λ row : Frame.t Z, (Frame.key row, Frame.RSSI row, Frame.year_month_day row,
                         Frame.hour row, Frame.RSSI_n row)) <$> out
    = (λ row : Frame.t Z, (Frame.key row, Frame.RSSI row, Frame.year_month_day row,
                           Frame.hour row, Frame.RSSI_n row)) <$> out'.
Proof.
  intros (Hall & Hdt & ->)%run_result. eexists. split.
  - apply run_result. split; [| split; [by apply datetimelike_filter_true | reflexivity]].
    apply Forall_forall. intros r [_ Hr]%list_elem_of_filter.
    by eapply Forall_forall in Hall.
  - rewrite output_groups_filter by apply cell_index_None_mac.
    rewrite <-!list_fmap_compose. apply list_fmap_ext. intros _ g _.
    unfold compose, Pivot.binary_row, group_row, slot_average.
    cbn [Frame.key Frame.user_id Frame.timestamp Frame.RSSI Frame.year_month_day
         Frame.hour Frame.RSSI_n].
    assert ((λ i, mean (slot_readings df (g.1, Some g.2) i)) <$> seq 1 25
            = (λ i, mean (slot_readings
                            (filter (λ r, is_Some (mac_slot (Raw.mac_address r))) df)
                            (g.1, Some g.2) i)) <$> seq 1 25) as ->; [| done].
    apply list_fmap_ext. intros _ i _. by rewrite slot_readings_known.
Qed.

(** ** The written order does not depend on the order of the files *)

Lemma sorted_stable_unique {A K} `{!EqDecision K} (R : relation K) (key : A → K)
    (l1 l2 : list A) :
  (∀ x y, x ∈ l1 → y ∈ l1 → R (key x) (key y) → R (key y) (key x) → key x = key y) →
  StronglySorted (λ x y, R (key x) (key y)) l1 →
  StronglySorted (λ x y, R (key x) (key y)) l2 →
  l1 ≡ₚ l2 →
  (∀ k, filter (λ x, key x = k) l1 = filter (λ x, key x = k) l2) →
  l1 = l2.
Proof.
  revert l2. induction l1 as [|x l1 IH]; intros l2 Hanti Hs1 Hs2 Hp Hf.
  { by apply Permutation_nil_l in Hp. }
  destruct l2 as [|y l2]; [by apply Permutation_nil_r in Hp |].
  apply StronglySorted_inv in Hs1 as [Hs1 Hx].
  apply StronglySorted_inv in Hs2 as [Hs2 Hy].
  assert (x = y) as <-.
  { pose proof (Hf (key x)) as Hfx. rewrite !filter_cons in Hfx.
    rewrite decide_True in Hfx by done.
    destruct (decide (key y = key x)) as [Hk|Hk]; [congruence |].
    assert (y ∈ x :: l1) as Hyin by (rewrite Hp; by left).
    assert (x ∈ y :: l2) as Hxin by (rewrite <-Hp; by left).
    apply elem_of_cons in Hyin as [->|Hyin]; [done |].
    apply elem_of_cons in Hxin as [->|Hxin]; [done |].
    destruct Hk. symmetry. apply Hanti; [by left | by right | |].
    - by eapply Forall_forall in Hx.
    - by eapply Forall_forall in Hy. }
  f_equal. apply IH; [| done | done | by eapply Permutation_cons_inv |].
  - intros a b Ha Hb. apply Hanti; by right.
  - intros k. specialize (Hf k). rewrite !filter_cons in Hf.
    destruct (decide (key x = k)); [by injection Hf | done].
Qed.

Lemma record_key_leb_antisym r1 r2 :
  key_leb (record_key r1) (record_key r2) = true →
  key_leb (record_key r2) (record_key r1) = true →
  record_key r1 = record_key r2.
Proof.
  destruct (record_key r1) as [u1 o1] eqn:H1, (record_key r2) as [u2 o2] eqn:H2.
  intros [Hlt|[-> Hle]]%key_leb_spec [Hlt'|[Heq Hle']]%key_leb_spec; try lia.
  f_equal. destruct o1 as [t1|], o2 as [t2|]; try done. f_equal.
  destruct (record_key_timestamp r1 t1) as (Hz1 & _); [by rewrite H1 |].
  destruct (record_key_timestamp r2 t2) as (Hz2 & _); [by rewrite H2 |].
  by apply ts_leb_antisym.
Qed.

Lemma flag_run_sorted df :
  StronglySorted (λ r1 r2 : Frame.t Z, key_leb (Frame.key r1) (Frame.key r2) = true)
    (FlagAppend.run df).
Proof. apply (mergesort_sorted row_leb); [apply row_leb_total | apply row_leb_trans]. Qed.

Lemma flag_run_filter df k :
  filter (λ row, Frame.key row = k) (FlagAppend.run df)
  = FlagAppend.flag_row <$> group_records df k.
Proof.
  unfold FlagAppend.run, FlagAppend.convert_rssi_to_binary,
    FlagAppend.transform_and_flag_data.
  rewrite (mergesort_filter row_leb);
    [| apply row_leb_total | apply row_leb_trans
     | intros x y Hx Hy; unfold row_leb; rewrite Hx, Hy; apply key_leb_refl].
  by rewrite filter_fmap_list.
Qed.

Lemma flag_run_antisym df x y :
  x ∈ FlagAppend.run df → y ∈ FlagAppend.run df →
  key_leb (Frame.key x) (Frame.key y) = true →
  key_leb (Frame.key y) (Frame.key x) = true →
  Frame.key x = Frame.key y.
Proof.
  rewrite !run_Permutation.
  intros (r1 & -> & _)%list_elem_of_fmap (r2 & -> & _)%list_elem_of_fmap.
  rewrite !flag_row_key. apply record_key_leb_antisym.
Qed.

(** X15. The flag-append table depends on the input order only within
    groups: two input tables with the same records, in which the records
    of every [(user_id, timestamp)] come in the same order, give the same
    table.  The order in which the files are listed matters only for
    records that share a key. *)
Theorem flag_append_order_independent (df1 df2 : list Raw.t) :
  df1 ≡ₚ df2 →
  (∀ k, group_records df1 k = group_records df2 k) →
  FlagAppend.run df1 = FlagAppend.run df2.
Proof.
  intros Hp Hgroups.
  apply (sorted_stable_unique (λ k1 k2, key_leb k1 k2 = true) Frame.key).
  - intros x y. apply flag_run_antisym.
  - apply flag_run_sorted.
  - apply flag_run_sorted.
  - by rewrite !run_Permutation, Hp.
  - intros k. by rewrite !flag_run_filter, Hgroups.
Qed.

(** ** Tables on which the two scripts agree *)

Lemma filter_key_single {A K} `{!EqDecision K} (key : A → K) (l : list A) (x : A) :
  NoDup (key <$> l) → x ∈ l → filter (λ y, key y = key x) l = [x].
Proof.
  induction l as [|y l IH]; intros Hnd Hin; [by apply elem_of_nil in Hin |].
  rewrite fmap_cons in Hnd. apply list.NoDup_cons in Hnd as [Hy Hnd].
  rewrite filter_cons. apply elem_of_cons in Hin as [->|Hin].
  - rewrite decide_True by done. f_equal.
    clear IH Hnd. induction l as [|z l IH]; [done |].
    rewrite fmap_cons in Hy. apply not_elem_of_cons in Hy as [Hz Hy].
    rewrite filter_cons_False by congruence. by apply IH.
  - rewrite decide_False; [by apply IH |].
    intros Heq. apply Hy. rewrite Heq. by apply list_elem_of_fmap_2.
Qed.

Lemma filter_keys_Permutation {A K} `{!EqDecision K} (key : A → K) (l1 l2 : list A) k :
  NoDup (key <$> l1) → l1 ≡ₚ l2 →
  filter (λ x, key x = k) l1 = filter (λ x, key x = k) l2.
Proof.
  intros Hnd Hp.
  assert (filter (λ x, key x = k) l1 ≡ₚ filter (λ x, key x = k) l2) as Hpf
    by (by rewrite Hp).
  destruct (filter (λ x, key x = k) l1) as [|x [|y l]] eqn:Hf.
  - by apply Permutation_nil_l in Hpf.
  - by apply Permutation_singleton_l in Hpf.
  - assert (x ∈ filter (λ x, key x = k) l1) as [Hkx Hx]%list_elem_of_filter
      by (rewrite Hf; by left).
    assert (filter (λ z, key z = key x) l1 = [x]) as Hone by (by apply filter_key_single).
    rewrite Hkx, Hf in Hone. discriminate.
Qed.

Lemma Qc_single_mean (v : Qc) : arith_mean [v] = Some v.
Proof.
  unfold arith_mean, Qc_sum. cbn [foldr length]. f_equal.
  change (Z.of_nat 1) with 1. rewrite Z2Qc_inj_0, Z2Qc_inj_1, Qcplus_0_r.
  apply (right_id 1%Qc Qcdiv).
Qed.

Lemma omap_single_slot {B} (f : nat → option B) (s : nat) (a : B) (l : list nat) :
  NoDup l → s ∈ l → f s = Some a → (∀ i, i ≠ s → f i = None) → omap f l = [a].
Proof.
  intros Hnd Hin Hs Hother. induction l as [|i l IH]; [by apply elem_of_nil in Hin |].
  apply list.NoDup_cons in Hnd as [Hi Hnd]. csimpl.
  apply elem_of_cons in Hin as [<-|Hin].
  - rewrite Hs. csimpl. f_equal. apply omap_nil_iff, Forall_forall.
    intros j Hj. apply Hother. by intros ->.
  - rewrite Hother by (by intros ->). by apply IH.
Qed.

(** A group of one record, of a registered beacon with a reading: the
    pivot row is the flag-append row of that record. *)
Lemma single_group_row df r u t s v :
  NoDup (record_key <$> df) → r ∈ df → record_key r = (u, Some t) →
  mac_slot (Raw.mac_address r) = Some s → Raw.rssi r = Some v →
  Pivot.binary_row (group_row df (u, t)) = FlagAppend.flag_row r.
Proof.
  intros Hnd Hr Hk Hs Hv.
  assert (group_records df (u, Some t) = [r]) as Hgroup.
  { unfold group_records. rewrite <-Hk. by apply filter_key_single. }
  assert (∀ i, slot_average df (u, Some t) i = if decide (i = s) then Some v else None)
    as Havg.
  { intros i. unfold slot_average, slot_readings. rewrite Hgroup, filter_cons, filter_nil.
    rewrite mean_arith_mean. rewrite Hs.
    destruct (decide (Some s = Some i)) as [[= ->]|Hne].
    - rewrite decide_True by done. csimpl. rewrite Hv. csimpl. apply Qc_single_mean.
    - rewrite decide_False by congruence. done. }
  assert (1 ≤ s ≤ 25)%nat as Hrange by (by apply mac_slot_range in Hs).
  assert (Frame.timestamp (FlagAppend.flag_row r) = Some t ∧ Raw.pid r = u) as [Hts Hu].
  { change (Frame.timestamp (FlagAppend.flag_row r)) with (record_key r).2.
    change (Raw.pid r) with (record_key r).1. by rewrite Hk. }
  destruct (flag_row_dates r) as [Hd Hh]. rewrite Hts in Hd, Hh.
  assert (FlagAppend.flag_row r
          = Frame.mk (Raw.pid r) (Frame.timestamp (FlagAppend.flag_row r))
              (Raw.mac_address r) (Raw.rssi r) (Raw.column6 r)
              (Frame.year_month_day (FlagAppend.flag_row r))
              (Frame.hour (FlagAppend.flag_row r))
              (Frame.RSSI_n (FlagAppend.flag_row r))) as -> by reflexivity.
  rewrite Hts, Hd, Hh, Hu.
  unfold Pivot.binary_row, group_row.
  cbn [Frame.user_id Frame.timestamp Frame.mac_address Frame.RSSI Frame.power
       Frame.year_month_day Frame.hour Frame.RSSI_n fst snd fmap option_fmap option_map].
  rewrite Hgroup. f_equal.
  - change (Raw.mac_address <$> [r]) with [Raw.mac_address r].
    destruct (Raw.mac_address r); [reflexivity | discriminate Hs].
  - rewrite mean_arith_mean, omap_id_fmap, Hv.
    rewrite (omap_single_slot _ s v); [apply Qc_single_mean | apply NoDup_seq | | |].
    + apply elem_of_seq. lia.
    + by rewrite Havg, decide_True.
    + intros i Hi. by rewrite Havg, decide_False.
  - change (Raw.column6 <$> [r]) with [Raw.column6 r].
    destruct (Raw.column6 r); reflexivity.
  - rewrite flag_row_flags, Hs. rewrite <-list_fmap_compose.
    apply list_eq. intros j. unfold one_hot, no_flags.
    destruct (decide (j < 25)%nat) as [Hj|Hj].
    + rewrite list_lookup_fmap, lookup_seq_lt by lia. cbn [fmap option_fmap option_map compose].
      rewrite Havg. destruct (decide (1 + j = s)%nat) as [<-|Hne].
      * by rewrite list_lookup_insert_eq by (rewrite length_replicate; lia).
      * rewrite list_lookup_insert_ne by lia. by rewrite lookup_replicate_2 by lia.
    + rewrite !lookup_ge_None_2; [done | |].
      * rewrite length_insert, length_replicate. lia.
      * rewrite length_fmap, length_seq. lia.
Qed.

(** X16. On a table in which every [(user_id, timestamp)] occurs once,
    every record has a timestamp text that can be read, a registered MAC
    address and a signal strength, and the timestamps make a datetime
    column, the pivot script returns exactly the table the flag-append
    script returns: same rows, same cells, same order. *)
Theorem scripts_agree_without_duplicates (df : list Raw.t) :
  NoDup (record_key <$> df) →
  Forall (λ r, is_Some (record_key r).2 ∧
               is_Some (mac_slot (Raw.mac_address r)) ∧
               is_Some (Raw.rssi r)) df →
  datetimelike (FlagAppend.dt df) = true →
  FlagAppend.outcome df = Returns (FlagAppend.run df) ∧
  Pivot.run df = Returns (FlagAppend.run df).
Proof.
  intros Hnd Hall Hdt. split; [by apply outcome_Returns |].
  assert (Forall (λ r, ¬ Pivot.unparseable r) df) as Hno.
  { apply Forall_forall. intros r Hr (raw & e & Hraw & Hx).
    eapply Forall_forall in Hall as ([t Ht] & _); [| exact Hr].
    unfold record_key, to_datetime in Ht. cbn [snd] in Ht. rewrite Hraw in Ht.
    cbn [mbind option_bind] in Ht. by rewrite Hx in Ht. }
  apply run_result. split; [exact Hno |]. split; [exact Hdt |].
  assert (∀ row, row ∈ FlagAppend.flag_row <$> df ↔
                 row ∈ Pivot.binary_row <$>
                   (group_row df <$> Pivot.output_groups (Pivot.prepared_of <$> df)))
    as Helems.
  { intros row. rewrite <-list_fmap_compose, !list_elem_of_fmap. split.
    - intros (r & -> & Hr).
      destruct (proj1 (Forall_forall _ _) Hall r Hr) as ([t Ht] & [s Hs] & [v Hv]).
      assert (record_key r = (Raw.pid r, Some t)) as Hk.
      { unfold record_key in *. cbn [snd] in Ht. by rewrite Ht. }
      exists (Raw.pid r, t). split.
      + symmetry. by eapply single_group_row.
      + apply output_groups_elem_of. exists s, r.
        split; [by apply list_elem_of_filter |]. split; [done | by exists v].
    - intros (g & -> & [i (r & [Hk Hr]%list_elem_of_filter & Hs & [v Hv])]%output_groups_elem_of).
      exists r. split; [| done]. destruct g as [u t].
      by eapply single_group_row. }
  assert (NoDup (FlagAppend.flag_row <$> df)) as Hnd_flag.
  { apply (NoDup_fmap_1 Frame.key). by rewrite <-list_fmap_compose. }
  assert (NoDup (Pivot.binary_row <$>
            (group_row df <$> Pivot.output_groups (Pivot.prepared_of <$> df)))) as Hnd_pivot.
  { apply (NoDup_fmap_1 Frame.key). eapply run_keys_NoDup.
    apply run_result. split; [exact Hno |]. split; [exact Hdt | reflexivity]. }
  assert (FlagAppend.run df ≡ₚ
          Pivot.binary_row <$>
            (group_row df <$> Pivot.output_groups (Pivot.prepared_of <$> df))) as Hperm.
  { rewrite run_Permutation. by apply NoDup_Permutation. }
  apply (sorted_stable_unique (λ k1 k2, key_leb k1 k2 = true) Frame.key).
  - intros x y. apply flag_run_antisym.
  - apply flag_run_sorted.
  - apply pivot_rows_sorted.
  - exact Hperm.
  - intros k. apply filter_keys_Permutation; [| exact Hperm].
    rewrite run_Permutation, <-list_fmap_compose. done.
Qed.

End properties.

(** * Examples

    The properties above at concrete tables, with [iso8601] for the
    parser. *)

Lemma iso8601_reads_iso8601 (raw : string) (x : Ts.t) :
  parse_iso8601 raw = Some x → parse_datetime_string raw = Returns (Some x).
Proof.
  intros Hx. cbn [parse_datetime_string iso8601]. unfold iso8601_datetime_string.
  rewrite Hx. case_bool_decide as Hnat; [| done].
  destruct Hnat as [->|Hnat]; [by vm_compute in Hx |].
  unfold nat_strings in Hnat.
  repeat (apply elem_of_cons in Hnat as [->|Hnat]; [by vm_compute in Hx |]).
  by apply elem_of_nil in Hnat.
Qed.

Lemma timestamp_normalization_witness :
  let r := Raw.mk 1 (Some "2024-03-01T08:15:30.5+02:00") None None None None in
  Frame.timestamp (FlagAppend.flag_row r)
    = Some (Ts.mk 2024 3 1 8 15 30 500000000 None) ∧
  Frame.year_month_day (FlagAppend.flag_row r) = Some "2024-03-01" ∧
  Frame.hour (FlagAppend.flag_row r) = Some 8.
Proof.
  intros r.
  destruct (timestamp_normalization iso8601_reads_iso8601) as (_ & Hiso & _).
  destruct (Hiso r 2024 3 1 "T"%char 8 15 30 [5] (Signed true 2 0)) as (Ht & Hd & Hh & _).
  - unfold iso8601_parts. change (days_in_month 2024 3) with 31.
    split; [lia |]. split; [lia |]. split; [lia |]. split; [by left |].
    split; [lia |]. split; [lia |]. split; [lia |].
    split; [repeat constructor; lia |]. split; [cbn [length]; lia | lia].
  - reflexivity.
  - split; [exact Ht |]. split; [exact Hd | exact Hh].
Defined.



(** C2, as stated, fails: with [unknown_group] the later instant is a
    group of one record, whose MAC address is not registered, and the
    output has a row for the earlier instant only. *)
Lemma pivot_unmatched_group_counterexample :
  group_records unknown_group (record_key unknown_record) = [unknown_record] ∧
  mac_slot (Raw.mac_address unknown_record) = None ∧
  (∃ out, Pivot.run unknown_group = Returns out ∧ length out = 1%nat) ∧
  ¬ ∃ out row, Pivot.run unknown_group = Returns out ∧ row ∈ out ∧
               Frame.key row = record_key unknown_record.
Proof.
  split; [by vm_compute |]. split; [by vm_compute |].
  destruct (Pivot.run unknown_group) as [out|e] eqn:Hrun; [| by vm_compute in Hrun].
  destruct out as [|row [|row' out]];
    [by vm_compute in Hrun | | by vm_compute in Hrun].
  split; [by exists [row] |].
  intros (out & row2 & [= <-] & ->%list_elem_of_singleton & Hkey).
  vm_compute in Hrun. injection Hrun as <-. by vm_compute in Hkey.
Qed.

Lemma pivot_group_presence_witness :
  ∃ out, Pivot.run unknown_group = Returns out ∧
         ¬ ∃ row, row ∈ out ∧ Frame.key row = record_key unknown_record.
Proof.
  destruct (Pivot.run unknown_group) as [out|e] eqn:Hrun; [| by vm_compute in Hrun].
  exists out. split; [done |].
  destruct (pivot_group_presence unknown_group out
              (1, Ts.mk 2024 3 1 8 15 31 500000000 None) Hrun) as (_ & Hnone & _).
  apply Hnone. intros r Hr.
  assert (group_records unknown_group (1, Some (Ts.mk 2024 3 1 8 15 31 500000000 None))
          = [unknown_record]) as Hg by (by vm_compute).
  cbn [fst snd] in Hr. rewrite Hg in Hr.
  apply list_elem_of_singleton in Hr as ->. by vm_compute.
Defined.

(** C3, as stated, fails: with [missing_reading] the group has a record
    carrying the MAC address of slot 2, yet flag 2 of its row is 0, because
    that record has no signal strength. *)
Lemma pivot_flag_counterexample :
  ¬ (∀ out row i,
       Pivot.run missing_reading = Returns out → row ∈ out → (1 ≤ i ≤ 25)%nat →
       (Frame.flag i row = Some 1 ↔
        ∃ r, r ∈ group_records missing_reading (Frame.key row) ∧
             mac_slot (Raw.mac_address r) = Some i)).
Proof.
  intros H.
  destruct (Pivot.run missing_reading) as [out|e] eqn:Hrun; [| by vm_compute in Hrun].
  destruct out as [|row out]; [by vm_compute in Hrun |].
  specialize (H (row :: out) row 2%nat eq_refl ltac:(by left) ltac:(lia)).
  vm_compute in Hrun. injection Hrun as <- _.
  destruct H as [_ H].
  assert (Some 0 = Some 1) as Hbad; [| done].
  apply H. exists (Raw.mk 1 (Some "2024-03-01T08:15:30.5") (Some "-")
                     (Some "C6:CD:5E:3D:2F:BB") None (Some "-")).
  split; [| by vm_compute].
  apply (bool_decide_unpack _). by vm_compute.
Qed.

Lemma pivot_flags_witness :
  ∃ row, Pivot.run scenario = Returns [row] ∧
         foldr Z.add 0 (Frame.RSSI_n row) = 2.
Proof.
  destruct (Pivot.run scenario) as [out|e] eqn:Hrun; [| by vm_compute in Hrun].
  destruct out as [|row [|row' out]];
    [by vm_compute in Hrun | | by vm_compute in Hrun].
  exists row. split; [done |].
  destruct (pivot_flags scenario [row] row Hrun ltac:(by left)) as (_ & _ & Hsum & _).
  rewrite Hsum. vm_compute in Hrun. injection Hrun as <-. by vm_compute.
Defined.

(** C9, as stated, fails: with [missing_power] the first record of the
    group has an empty power cell, and the row takes the power of the
    second record. *)
Lemma pivot_representative_counterexample :
  ¬ (∀ out row,
       Pivot.run missing_power = Returns out → row ∈ out →
       ∃ r, head (group_records missing_power (Frame.key row)) = Some r ∧
            Frame.mac_address row = Raw.mac_address r ∧
            Frame.power row = Raw.column6 r).
Proof.
  intros H.
  destruct (Pivot.run missing_power) as [out|e] eqn:Hrun; [| by vm_compute in Hrun].
  destruct out as [|row out]; [by vm_compute in Hrun |].
  destruct (H (row :: out) row eq_refl ltac:(by left)) as (r & Hr & _ & Hp).
  vm_compute in Hrun. injection Hrun as <- _.
  vm_compute in Hr. injection Hr as <-. by vm_compute in Hp.
Qed.

Lemma pivot_representative_witness :
  ∃ row, Pivot.run scenario = Returns [row] ∧
         Frame.mac_address row = Some "F7:7F:78:76:7E:F3" ∧
         Frame.power row = Some "-".
Proof.
  destruct (Pivot.run scenario) as [out|e] eqn:Hrun; [| by vm_compute in Hrun].
  destruct out as [|row [|row' out]];
    [by vm_compute in Hrun | | by vm_compute in Hrun].
  exists row. split; [done |].
  destruct (pivot_representative scenario [row] row Hrun ltac:(by left)) as (Hm & Hp & _).
  rewrite Hm, Hp. vm_compute in Hrun. injection Hrun as <-. by vm_compute.
Defined.

Lemma pivot_signal_strength_witness :
  ∃ row, Pivot.run missing_reading = Returns [row] ∧
         Frame.RSSI row = Some (Qc_of_Z (-60)).
Proof.
  destruct (Pivot.run missing_reading) as [out|e] eqn:Hrun; [| by vm_compute in Hrun].
  destruct out as [|row [|row' out]];
    [by vm_compute in Hrun | | by vm_compute in Hrun].
  exists row. split; [done |].
  destruct (pivot_signal_strength missing_reading [row] row Hrun ltac:(by left))
    as (Hmean & _).
  rewrite Hmean. vm_compute in Hrun. injection Hrun as <-.
  f_equal. vm_compute. f_equal. apply Qc_is_canon. reflexivity.
Defined.

(** C8, as stated, fails for pivot mode: one record whose timestamp text
    cannot be read makes the pivot script raise, so no table is returned
    and no record is retained. *)
Lemma unparseable_timestamp_counterexample :
  Exists Pivot.unparseable bad_timestamp ∧
  ¬ ∃ out, Pivot.run bad_timestamp = Returns out.
Proof.
  split.
  - apply Exists_cons_hd. exists "not a time". eexists. split; [reflexivity |].
    by vm_compute.
  - intros [out Hout]. by vm_compute in Hout.
Qed.

Lemma unparseable_timestamp_handling_witness :
  (∃ out, FlagAppend.outcome bad_timestamp = Returns out ∧ length out = 1%nat) ∧
  ∃ e, Pivot.run bad_timestamp = Raises e.
Proof.
  destruct (parse_datetime_string "not a time") as [v|e] eqn:Hx; [by vm_compute in Hx |].
  destruct (unparseable_timestamp_handling bad_timestamp
              (Raw.mk 1 (Some "not a time") (Some "-")
                 (Some "F7:7F:78:76:7E:F3") (reading (-60)) (Some "-"))
              "not a time" e)
    as (_ & _ & Hout & He).
  - by left.
  - reflexivity.
  - exact Hx.
  - split; [| exact He].
    destruct (FlagAppend.outcome bad_timestamp) as [out|e'] eqn:Ho; [| by vm_compute in Ho].
    exists out. split; [reflexivity |]. by destruct (Hout out eq_refl) as [-> _].
Defined.

Lemma flag_loader_rows_witness :
  ∃ df, FlagAppendMain.merge_individual_csv_files example_directory = Some df ∧
        length df = 2%nat.
Proof.
  destruct (FlagAppendMain.merge_individual_csv_files example_directory)
    as [df|] eqn:Hdf; [| by vm_compute in Hdf].
  exists df. split; [done |].
  destruct (flag_loader_rows example_directory df Hdf) as (_ & _ & ->).
  by vm_compute.
Defined.

Lemma flag_loader_ignores_witness :
  FlagAppendMain.main example_directory
  = FlagAppendMain.main
      (with_listdir example_directory
         ["user-ble-id_2.csv"; "notes.txt"; "user-ble-id_broken.csv"; "user-ble-id_1.csv"]).
Proof.
  destruct (flag_loader_ignores example_directory
              ["user-ble-id_2.csv"; "notes.txt"; "user-ble-id_broken.csv"]
              ["user-ble-id_1.csv"] "BLEdata3.csv") as (_ & Hmain & _).
  - left. by vm_compute.
  - exact Hmain.
Defined.

Lemma flag_main_end_to_end_witness :
  ∃ out, FlagAppendMain.main example_directory = Returns (Some out) ∧ length out = 2%nat.
Proof.
  destruct (FlagAppendMain.main example_directory) as [[out|]|e] eqn:Hout;
    [| by vm_compute in Hout | by vm_compute in Hout].
  exists out. split; [done |].
  destruct (flag_main_end_to_end example_directory out Hout) as (df & Hdf & _ & _ & -> & _).
  vm_compute in Hdf. by injection Hdf as <-.
Defined.

Lemma pivot_loader_fresh_witness :
  ∃ df, PivotMain.merge_individual_csv_files example_directory = Returns (Some df) ∧
        ∀ r, r ∈ df →
             ∃ file front rows,
               file ∈ listdir example_directory ∧ file = front +:+ ".csv" ∧
               (file ∉ PivotMain.previous_outputs) ∧
               read_csv example_directory file = Returns (SixColumns rows) ∧ r ∈ rows.
Proof.
  destruct (PivotMain.merge_individual_csv_files example_directory) as [[df|]|e] eqn:Hl;
    [| by vm_compute in Hl | by vm_compute in Hl].
  exists df. split; [reflexivity |].
  destruct (pivot_loader_fresh example_directory (Some df) eq_refl Hl) as [_ Hrows].
  intros r Hr. by apply (Hrows df eq_refl r).
Defined.

Lemma flag_append_missing_last_witness :
  ∃ r1 r2 r3, FlagAppend.run mixed_timestamps = [r1; r2; r3] ∧
              is_Some (Frame.timestamp r1) ∧
              (Frame.timestamp r2 = None → Frame.timestamp r3 = None).
Proof.
  destruct (FlagAppend.run mixed_timestamps) as [|r1 [|r2 [|r3 [|r4 l]]]] eqn:Hrun;
    try (by vm_compute in Hrun).
  exists r1, r2, r3. split; [done |].
  split; [vm_compute in Hrun; injection Hrun as <- _ _; by eexists |].
  destruct (flag_append_missing_last mixed_timestamps [r1] [] [] r2 r3 Hrun) as [_ H].
  apply H. vm_compute in Hrun. by injection Hrun as _ <- <-.
Defined.

Lemma pivot_flags_from_flag_append_witness :
  ∃ row frow, Pivot.run scenario = Returns [row] ∧
              frow ∈ FlagAppend.run scenario ∧ Frame.flag 2 frow = Some 1.
Proof.
  destruct (Pivot.run scenario) as [out|e] eqn:Hrun; [| by vm_compute in Hrun].
  destruct out as [|row [|row' out]];
    [by vm_compute in Hrun | | by vm_compute in Hrun].
  destruct (proj1 (pivot_flags_from_flag_append scenario [row] row 2
                     Hrun ltac:(by left) ltac:(lia)))
    as (frow & Hin & _ & Hflag & _).
  - vm_compute in Hrun. by injection Hrun as <-.
  - exists row, frow. split; [reflexivity |]. split; assumption.
Defined.

Lemma pivot_sorted_witness :
  ∃ out, Pivot.run unknown_group = Returns out ∧ (length out ≤ 2)%nat.
Proof.
  destruct (Pivot.run unknown_group) as [out|e] eqn:Hrun; [| by vm_compute in Hrun].
  exists out. split; [done |].
  by destruct (pivot_sorted unknown_group out Hrun) as (_ & Hlen & _).
Defined.

Lemma pivot_unknown_macs_only_representative_witness :
  ∃ out out',
    Pivot.run unknown_group = Returns out ∧
    Pivot.run (filter (λ r, is_Some (mac_slot (Raw.mac_address r))) unknown_group)
      = Returns out' ∧
    Frame.RSSI_n <$> out = Frame.RSSI_n <$> out'.
Proof.
  destruct (Pivot.run unknown_group) as [out|e] eqn:Hrun; [| by vm_compute in Hrun].
  destruct (pivot_unknown_macs_only_representative unknown_group out Hrun)
    as (out' & Hrun' & Heq).
  exists out, out'. split; [done |]. split; [done |].
  apply (f_equal (fmap snd)) in Heq. by rewrite <-!list_fmap_compose in Heq.
Defined.

Lemma flag_append_order_independent_witness :
  FlagAppend.run unknown_group = FlagAppend.run unknown_group_swapped.
Proof.
  apply flag_append_order_independent.
  - apply perm_swap.
  - intros k. unfold group_records, unknown_group, unknown_group_swapped.
    rewrite !filter_cons, !filter_nil.
    assert (record_key unknown_record
            ≠ record_key (Raw.mk 1 (Some "2024-03-01T08:15:30.5") (Some "-")
                            (Some "F7:7F:78:76:7E:F3") (reading (-60)) (Some "-")))
      as Hne by (by vm_compute).
    repeat case_decide; congruence.
Defined.

Lemma scripts_agree_without_duplicates_witness :
  Pivot.run example_agree = Returns (FlagAppend.run example_agree).
Proof.
  refine (proj2 (scripts_agree_without_duplicates example_agree _ _ _)).
  - apply (bool_decide_unpack _). by vm_compute.
  - unfold example_agree.
    apply List.Forall_cons;
      [| apply List.Forall_cons; [| apply List.Forall_cons; [| apply List.Forall_nil]]];
      (split; [| split]); vm_compute; eexists; reflexivity.
  - by vm_compute.
Defined.
